(** * kysely-pg-observables: change tailer and reactive query runner

    A shallow embedding of [src/walSubject.ts] (slot manager, change poller,
    event decoder, teardown) and of [observeQuery] (the reactive query
    runner), with the properties of the specification stated over it.

    Asynchronous code is modelled by its suspension points: a JavaScript
    function runs without interruption up to an [await] whose promise is
    still pending; the continuation is a later step of the model, taken
    with the value the environment (the database, the user query, a user
    handler) supplies. *)

From Stdlib Require Import ZArith String Ascii List Lia Bool.
From stdpp Require Import base option list strings gmap.

Open Scope string_scope.
Open Scope list_scope.

(** ** Data model ([types.ts]) *)

(** Column values are the raw JSON values of the decoder; [JUndefined] is
    what an out-of-range array read yields. *)
Inductive JValue :=
| JUndefined
| JNull
| JBool (b : bool)
| JNum (n : Z)
| JStr (s : string).

Inductive EventKind := EInsert | EUpdate | EDelete.

(** [SubjectChangeEvent]: a tagged union; insert and update carry [row],
    delete carries [identity]. *)
Inductive SubjectChangeEvent :=
| InsertEvent (table : string) (row : gmap string JValue)
| UpdateEvent (table : string) (row : gmap string JValue)
| DeleteEvent (table : string) (identity : gmap string JValue).

Definition event_table (c : SubjectChangeEvent) : string :=
  match c with
  | InsertEvent t _ | UpdateEvent t _ | DeleteEvent t _ => t
  end.

Definition event_kind (c : SubjectChangeEvent) : EventKind :=
  match c with
  | InsertEvent _ _ => EInsert
  | UpdateEvent _ _ => EUpdate
  | DeleteEvent _ _ => EDelete
  end.

(** ["row" in change ? change.row : change.identity] *)
Definition event_payload (c : SubjectChangeEvent) : gmap string JValue :=
  match c with
  | InsertEvent _ r | UpdateEvent _ r => r
  | DeleteEvent _ i => i
  end.

(** ** The reactive query runner ([observeQuery]) *)

Module ObserveQuery.

Section Runner.

(** [Result] is the type the user query resolves to, [Err] the type of
    the values it rejects with. *)
Context {Result Err : Type}.

(** A user handler is called with the payload and the last result; its
    promise later resolves to a boolean or rejects. *)
Inductive HandlerOutcome := Returns (b : bool) | Throws.

Definition Handler := gmap string JValue -> option Result -> HandlerOutcome.

Record TableMapHandler := {
  h_insert : option Handler;
  h_update : option Handler;
  h_delete : option Handler
}.

(** [valueAtHandlerMapForTable[change.event]] *)
Definition handler_for (h : TableMapHandler) (k : EventKind) : option Handler :=
  match k with
  | EInsert => h_insert h
  | EUpdate => h_update h
  | EDelete => h_delete h
  end.

(** What the subscriber of the returned observable observes. *)
Inductive Notification :=
| Next (r : Result)
| Error (e : Err)
| Complete.

(** The state created by one call of the subscribe function: the three
    [let] variables of the closure, the rxjs subscriber and subject
    subscription, the [next] callbacks suspended at [await maybeHandler],
    and counters that only observe the run. *)
Record RunnerState := {
  runningQuery : option nat;          (* the promise of run number n *)
  queueNextQuery : bool;              (* set to runQueryAndCallNextIfExists *)
  lastResult : option Result;
  closed : bool;                      (* subscriber.closed *)
  subscribed : bool;                  (* subjectSubscription is attached *)
  awaiting : list HandlerOutcome;     (* suspended next callbacks *)
  pendingQueries : nat;               (* query() promises not yet settled *)
  queryCalls : nat;                   (* calls of query() so far *)
  handlerCalls : nat;                 (* handler invocations so far *)
  accepted : nat;                     (* handler results that were true *)
  delivered : list Notification       (* notifications the subscriber got *)
}.

Definition set_running (v : option nat) (s : RunnerState) : RunnerState :=
  {| runningQuery := v; queueNextQuery := queueNextQuery s;
     lastResult := lastResult s; closed := closed s;
     subscribed := subscribed s; awaiting := awaiting s;
     pendingQueries := pendingQueries s; queryCalls := queryCalls s;
     handlerCalls := handlerCalls s; accepted := accepted s;
     delivered := delivered s |}.

Definition set_queue (v : bool) (s : RunnerState) : RunnerState :=
  {| runningQuery := runningQuery s; queueNextQuery := v;
     lastResult := lastResult s; closed := closed s;
     subscribed := subscribed s; awaiting := awaiting s;
     pendingQueries := pendingQueries s; queryCalls := queryCalls s;
     handlerCalls := handlerCalls s; accepted := accepted s;
     delivered := delivered s |}.

Definition set_lastResult (v : option Result) (s : RunnerState) : RunnerState :=
  {| runningQuery := runningQuery s; queueNextQuery := queueNextQuery s;
     lastResult := v; closed := closed s;
     subscribed := subscribed s; awaiting := awaiting s;
     pendingQueries := pendingQueries s; queryCalls := queryCalls s;
     handlerCalls := handlerCalls s; accepted := accepted s;
     delivered := delivered s |}.

Definition set_awaiting (v : list HandlerOutcome) (s : RunnerState) : RunnerState :=
  {| runningQuery := runningQuery s; queueNextQuery := queueNextQuery s;
     lastResult := lastResult s; closed := closed s;
     subscribed := subscribed s; awaiting := v;
     pendingQueries := pendingQueries s; queryCalls := queryCalls s;
     handlerCalls := handlerCalls s; accepted := accepted s;
     delivered := delivered s |}.

Definition set_pendingQueries (v : nat) (s : RunnerState) : RunnerState :=
  {| runningQuery := runningQuery s; queueNextQuery := queueNextQuery s;
     lastResult := lastResult s; closed := closed s;
     subscribed := subscribed s; awaiting := awaiting s;
     pendingQueries := v; queryCalls := queryCalls s;
     handlerCalls := handlerCalls s; accepted := accepted s;
     delivered := delivered s |}.

Definition set_queryCalls (v : nat) (s : RunnerState) : RunnerState :=
  {| runningQuery := runningQuery s; queueNextQuery := queueNextQuery s;
     lastResult := lastResult s; closed := closed s;
     subscribed := subscribed s; awaiting := awaiting s;
     pendingQueries := pendingQueries s; queryCalls := v;
     handlerCalls := handlerCalls s; accepted := accepted s;
     delivered := delivered s |}.

Definition set_handlerCalls (v : nat) (s : RunnerState) : RunnerState :=
  {| runningQuery := runningQuery s; queueNextQuery := queueNextQuery s;
     lastResult := lastResult s; closed := closed s;
     subscribed := subscribed s; awaiting := awaiting s;
     pendingQueries := pendingQueries s; queryCalls := queryCalls s;
     handlerCalls := v; accepted := accepted s;
     delivered := delivered s |}.

Definition set_accepted (v : nat) (s : RunnerState) : RunnerState :=
  {| runningQuery := runningQuery s; queueNextQuery := queueNextQuery s;
     lastResult := lastResult s; closed := closed s;
     subscribed := subscribed s; awaiting := awaiting s;
     pendingQueries := pendingQueries s; queryCalls := queryCalls s;
     handlerCalls := handlerCalls s; accepted := v;
     delivered := delivered s |}.

(** The rxjs subscriber: [next] on a closed subscriber does nothing;
    [error] and [complete] notify once, close the subscriber and run the
    teardown returned by the subscribe function, which detaches
    [subjectSubscription]; [unsubscribe] closes and runs the teardown. *)
Definition subscriber_next (r : Result) (s : RunnerState) : RunnerState :=
  if closed s then s
  else {| runningQuery := runningQuery s; queueNextQuery := queueNextQuery s;
          lastResult := lastResult s; closed := false;
          subscribed := subscribed s; awaiting := awaiting s;
          pendingQueries := pendingQueries s; queryCalls := queryCalls s;
          handlerCalls := handlerCalls s; accepted := accepted s;
          delivered := delivered s ++ [Next r] |}.

Definition subscriber_stop (n : option Notification) (s : RunnerState) : RunnerState :=
  if closed s then s
  else {| runningQuery := runningQuery s; queueNextQuery := queueNextQuery s;
          lastResult := lastResult s; closed := true;
          subscribed := false; awaiting := awaiting s;
          pendingQueries := pendingQueries s; queryCalls := queryCalls s;
          handlerCalls := handlerCalls s; accepted := accepted s;
          delivered := delivered s ++ option_list n |}.

Definition subscriber_error (e : Err) := subscriber_stop (Some (Error e)).
Definition subscriber_complete := subscriber_stop (Some Complete).
Definition unsubscribe := subscriber_stop None.

(** [runQueryAndCallNextIfExists]: calls [query()] and stores the promise
    chained on it in [runningQuery]. *)
Definition runQueryAndCallNextIfExists (s : RunnerState) : RunnerState :=
  let n := S (queryCalls s) in
  set_running (Some n)
    (set_pendingQueries (S (pendingQueries s)) (set_queryCalls n s)).

(** The [.then] callback of a run, with the value [query()] resolved to.
    There is nothing to resume when no query promise is pending. *)
Definition query_resolved (r : Result) (s : RunnerState) : RunnerState :=
  match pendingQueries s with
  | O => s
  | S p =>
      let s1 := set_running None (set_lastResult (Some r) (set_pendingQueries p s)) in
      let s2 := subscriber_next r s1 in
      if queueNextQuery s2
      then runQueryAndCallNextIfExists (set_queue false s2)
      else s2
  end.

(** The [.catch] callback of a run: [runningQuery] is left as it is. *)
Definition query_rejected (e : Err) (s : RunnerState) : RunnerState :=
  match pendingQueries s with
  | O => s
  | S p => subscriber_error e (set_pendingQueries p s)
  end.

(** The branch [if (shouldReRunQuery) { ... }] of the [next] callback. *)
Definition reRunQuery (s : RunnerState) : RunnerState :=
  match runningQuery s, queueNextQuery s with
  | None, false => runQueryAndCallNextIfExists s
  | Some _, false => set_queue true s
  | _, _ => s
  end.

Context (handlerMap : gmap string TableMapHandler).

(** The [next] callback up to its [await]: the handler is looked up and
    called with the payload and the current [lastResult]; without a
    handler the callback ends at once with [shouldReRunQuery = false]. *)
Definition change_delivered (c : SubjectChangeEvent) (s : RunnerState) : RunnerState :=
  if subscribed s then
    match handlerMap !! event_table c with
    | Some tmh =>
        match handler_for tmh (event_kind c) with
        | Some maybeHandler =>
            set_awaiting
              (awaiting s ++ [maybeHandler (event_payload c) (lastResult s)])
              (set_handlerCalls (S (handlerCalls s)) s)
        | None => s
        end
    | None => s
    end
  else s.

(** The rest of the [next] callback, once the [k]-th awaited handler
    promise settles; a rejected handler ends the callback. *)
Definition handler_settled (k : nat) (s : RunnerState) : RunnerState :=
  match awaiting s !! k with
  | None => s
  | Some out =>
      let s1 := set_awaiting (delete k (awaiting s)) s in
      match out with
      | Returns true => reRunQuery (set_accepted (S (accepted s1)) s1)
      | Returns false => s1
      | Throws => s1
      end
  end.

(** Everything that can happen to one runner. *)
Inductive Action :=
| Deliver (c : SubjectChangeEvent)
| HandlerSettles (k : nat)
| QueryResolves (r : Result)
| QueryRejects (e : Err)
| Unsubscribe
| SubjectCompletes
| SubjectErrors (e : Err).

Definition step (a : Action) (s : RunnerState) : RunnerState :=
  match a with
  | Deliver c => change_delivered c s
  | HandlerSettles k => handler_settled k s
  | QueryResolves r => query_resolved r s
  | QueryRejects e => query_rejected e s
  | Unsubscribe => unsubscribe s
  | SubjectCompletes => if subscribed s then subscriber_complete s else s
  | SubjectErrors e => if subscribed s then subscriber_error e s else s
  end.

Definition run (acts : list Action) (s : RunnerState) : RunnerState :=
  foldl (fun st a => step a st) s acts.

(** The subscribe function passed to [new Observable]: fresh variables, a
    first run, then the subscription to the subject.  A subject that has
    already completed completes the new subscriber at once. *)
Definition fresh : RunnerState :=
  {| runningQuery := None; queueNextQuery := false; lastResult := None;
     closed := false; subscribed := true; awaiting := [];
     pendingQueries := 0; queryCalls := 0; handlerCalls := 0;
     accepted := 0; delivered := [] |}.

(** [subjectStopped]: [None] for a live subject, [Some None] for a
    completed one, [Some (Some e)] for one that failed with [e]. *)
Definition subscribe (subjectStopped : option (option Err)) : RunnerState :=
  let s := runQueryAndCallNextIfExists fresh in
  match subjectStopped with
  | None => s
  | Some None => subscriber_complete s
  | Some (Some e) => subscriber_error e s
  end.

(** *** Several subscribers of one observable

    The observable only stores the subscribe function; every call of
    [observable.subscribe] runs it again.  The subject calls its
    observers in registration order. *)
Record World := {
  subjectStopped : option (option Err);
  runners : list RunnerState
}.

Definition observable_subscribe (w : World) : World :=
  {| subjectStopped := subjectStopped w;
     runners := runners w ++ [subscribe (subjectStopped w)] |}.

Inductive WorldAction :=
| Subscribe
| SubjectNext (c : SubjectChangeEvent)
| SubjectComplete
| SubjectError (e : Err)
| At (i : nat) (a : Action).

Definition world_step (a : WorldAction) (w : World) : World :=
  match a with
  | Subscribe => observable_subscribe w
  | SubjectNext c =>
      match subjectStopped w with
      | None => {| subjectStopped := None;
                   runners := step (Deliver c) <$> runners w |}
      | Some _ => w
      end
  | SubjectComplete =>
      match subjectStopped w with
      | None => {| subjectStopped := Some None;
                   runners := step SubjectCompletes <$> runners w |}
      | Some _ => w
      end
  | SubjectError e =>
      match subjectStopped w with
      | None => {| subjectStopped := Some (Some e);
                   runners := step (SubjectErrors e) <$> runners w |}
      | Some _ => w
      end
  | At i a =>
      {| subjectStopped := subjectStopped w;
         runners := alter (step a) i (runners w) |}
  end.

Definition world_run (acts : list WorldAction) (w : World) : World :=
  foldl (fun st a => world_step a st) w acts.

Definition empty_world : World := {| subjectStopped := None; runners := [] |}.

(** *** Notions used by the properties *)

(** The coalescing invariant: at most one query promise is pending, and
    with [runningQuery] undefined none is pending and none is queued. *)
Definition coalescing_inv (s : RunnerState) : Prop :=
  (pendingQueries s ≤ 1)%nat ∧
  (runningQuery s = None → pendingQueries s = 0 ∧ queueNextQuery s = false).

(** The actions by which a query promise settles. *)
Definition is_completion (a : Action) : bool :=
  match a with
  | QueryResolves _ | QueryRejects _ => true
  | _ => false
  end.

(** The [.catch] callback of a run. *)
Definition is_rejection (a : Action) : bool :=
  match a with
  | QueryRejects _ => true
  | _ => false
  end.

(** The actions that close the subscriber from outside the [next]
    callback: [unsubscribe()], and the subject completing or failing. *)
Definition ends_subscription (a : Action) : bool :=
  match a with
  | Unsubscribe | SubjectCompletes | SubjectErrors _ => true
  | _ => false
  end.

(** The values the subscriber received through [next]. *)
Definition nexts (s : RunnerState) : list Result :=
  omap (fun n => match n with Next r => Some r | _ => None end) (delivered s).

(** Every runner is closed exactly when it is detached from the subject,
    and all of them are once the subject has completed or failed. *)
Definition world_inv (w : World) : Prop :=
  ∀ i s, runners w !! i = Some s →
         closed s = negb (subscribed s) ∧
         (subjectStopped w ≠ None → closed s = true ∧ subscribed s = false).

End Runner.

End ObserveQuery.

(** ** The change tailer ([walSubject.ts]) *)

Module WalSubject.

Definition POLL_INTERVAL_MS : nat := 50.

(** *** Decoder records *)

Record Keys := {
  keynames : list string;
  keytypes : list string;
  keyvalues : list JValue
}.

(** [WALChange]; the last constructor stands for a record of any other
    [kind] that [JSON.parse] may hand over at run time. *)
Inductive WALChange :=
| WALInsertChange (schema table : string)
    (columnnames columntypes : list string) (columnvalues : list JValue)
| WALUpdateChange (schema table : string)
    (columnnames columntypes : list string) (columnvalues : list JValue)
    (oldkeys : Keys)
| WALDeleteChange (schema table : string) (oldkeys : Keys)
| WALOtherChange (kind schema table : string).

Record Payload := { lsn : string; change : list WALChange }.

(** A value thrown by JavaScript code: whether it is an [Error]
    instance, its [code] property if it has one, and its message. *)
Record Thrown := {
  isError : bool;
  code : option string;
  message : string
}.

Definition newError (msg : string) : Thrown :=
  {| isError := true; code := None; message := msg |}.

(** [invariant(cond, msg)] of tiny-invariant throws this when [cond] is
    false. *)
Definition invariantError (msg : string) : Thrown :=
  newError ("Invariant failed: " +:+ msg).

(** A row of [pg_logical_slot_get_changes]: [row_data] is what
    [JSON.parse(data)] gives, [None] when it throws a [SyntaxError]. *)
Record Row := { row_lsn : string; row_data : option (list WALChange) }.

Definition syntaxError : Thrown := newError "JSON.parse: unexpected token".

Definition toLsnData (r : Row) : Thrown + Payload :=
  match row_data r with
  | Some cs => inr {| lsn := row_lsn r; change := cs |}
  | None => inl syntaxError
  end.

(** [rows.map(toLsnData)]: stops at the first row that throws. *)
Fixpoint map_toLsnData (rows : list Row) : Thrown + list Payload :=
  match rows with
  | [] => inr []
  | r :: rest =>
      match toLsnData r with
      | inl e => inl e
      | inr p =>
          match map_toLsnData rest with
          | inl e => inl e
          | inr ps => inr (p :: ps)
          end
      end
  end.

(** How a [client.query] promise settles. *)
Inductive QueryOutcome :=
| QueryOk (rows : list Row)
| QueryThrows (e : Thrown).

(** *** Strings *)

(** [hay.includes(needle)] *)
Fixpoint includes (needle hay : string) : bool :=
  String.prefix needle hay ||
  match hay with
  | EmptyString => false
  | String _ rest => includes needle rest
  end.

(** The [add-tables] option built by [getChanges]. *)
Definition addTablesString (schema : string) (onlyIncludeTables : list string) : string :=
  String.concat ","
    (map (fun table => if includes "." table then table
                       else schema +:+ "." +:+ table)
         onlyIncludeTables).

(** *** A stream

    The constants and objects [getKyselyChanges] creates and its closures
    share: the held client, the slot name, the schema, the configured
    tables, the interval timer, and the subject. *)
Record Stream := {
  client : nat;
  slotName : string;
  schema : string;
  pollInterval : nat;
  onlyIncludeTables : list string;
  primaryKeyMap : option (gmap string (list string));
  isUsingMultipleSchemas : bool;
  intervalActive : bool;            (* the interval has not been cleared *)
  clientReleased : bool;            (* client.release() was called *)
  subjectStopped : bool             (* subject.complete() was called *)
}.

Record WalConfigOptions := {
  userSlotId : option string;
  userPollInterval : option nat;
  assumeSchema : option string
}.

(** *** Event decoder (the change handler passed to [getChanges]) *)

(** [names.map((name, index) => [name, values[index]])] *)
Definition pairs (names : list string) (values : list JValue) : list (string * JValue) :=
  imap (fun index name => (name, default JUndefined (values !! index))) names.

(** [Object.fromEntries]: later entries overwrite earlier ones. *)
Definition fromEntries (ps : list (string * JValue)) : gmap string JValue :=
  foldl (fun o p => <[p.1 := p.2]> o) ∅ ps.

Definition tableKey (s : Stream) (change_table : string) : string :=
  if negb (isUsingMultipleSchemas s) then change_table
  else schema s +:+ "." +:+ change_table.

(** The events one raw record leads to (one, or none for another kind). *)
Definition decode (s : Stream) (c : WALChange) : list SubjectChangeEvent :=
  match c with
  | WALInsertChange _ t names _ values =>
      [InsertEvent (tableKey s t) (fromEntries (pairs names values))]
  | WALUpdateChange _ t names _ values _ =>
      [UpdateEvent (tableKey s t) (fromEntries (pairs names values))]
  | WALDeleteChange _ t k =>
      [DeleteEvent (tableKey s t) (fromEntries (pairs (keynames k) (keyvalues k)))]
  | WALOtherChange _ _ _ => []
  end.

Definition decode_payloads (s : Stream) (payloads : list Payload) : list SubjectChangeEvent :=
  p ← payloads; c ← change p; decode s c.

(** *** Effects and the process state *)

Inductive Effect :=
| QGetChanges (client : nat) (slot addTables : string)
| QCreateSlot (client : nat) (slot : string)
| QDropSlot (client : nat) (slot : string)
| Warn (msg : string)
| Emit (stream : nat) (ev : SubjectChangeEvent)   (* subject.next *)
| Completed (stream : nat)                        (* subject.complete *)
| Released (client : nat)                         (* client.release *)
| UnhandledRejection (stream : nat) (e : Thrown)  (* a poll promise rejected *)
| TeardownResolved (stream : nat)
| TeardownRejected (stream : nat) (e : Thrown).

(** Where an asynchronous call is suspended. *)
Inductive Frame :=
| AwaitGetChanges                 (* getChanges, at client.query *)
| AwaitCreateSlot (e : Thrown)    (* the catch block of getChanges, in createSlot *)
| AwaitDropSlot.                  (* teardown, in dropSlot *)

(** A suspended call: the stream it works for, its frame, and, for a
    [getChanges] that was called from the catch block of another
    [getChanges], the errors those callers are holding (innermost first). *)
Record Call := {
  call_stream : nat;
  frame : Frame;
  outers : list Thrown
}.

(** [currentlyGettingChanges] is the module-level variable; [streams] are
    the streams created in this process, [calls] the suspended calls. *)
Record World := {
  currentlyGettingChanges : bool;
  streams : list Stream;
  calls : list Call;
  trace : list Effect
}.

Definition set_flag (b : bool) (w : World) : World :=
  {| currentlyGettingChanges := b; streams := streams w;
     calls := calls w; trace := trace w |}.

Definition set_streams (ss : list Stream) (w : World) : World :=
  {| currentlyGettingChanges := currentlyGettingChanges w; streams := ss;
     calls := calls w; trace := trace w |}.

Definition set_calls (cs : list Call) (w : World) : World :=
  {| currentlyGettingChanges := currentlyGettingChanges w;
     streams := streams w; calls := cs; trace := trace w |}.

Definition log (es : list Effect) (w : World) : World :=
  {| currentlyGettingChanges := currentlyGettingChanges w;
     streams := streams w; calls := calls w; trace := trace w ++ es |}.

Definition initial : World :=
  {| currentlyGettingChanges := false; streams := []; calls := []; trace := [] |}.

(** *** Slot manager *)

(** [createSlot], once its [client.query] has settled: [None] when it
    returns, [Some e] when it throws [e]. *)
Definition createSlot (o : QueryOutcome) : option Thrown :=
  match o with
  | QueryOk _ => None
  | QueryThrows e =>
      if negb (isError e) then
        Some (invariantError
                "Expected error thrown from pg_create_logical_replication_slot to be an instance of Error, but got something else")
      else if decide (code e = Some "58P01") then
        Some (newError
                ("Couldn't create replication slot, seems you don't have wal2json installed? Error: "
                 +:+ message e))
      else Some e
  end.

(** [dropSlot], once its [client.query] has settled: the catch block is
    empty, so it returns whatever happened. *)
Definition dropSlot (o : QueryOutcome) : option Thrown := None.

(** *** Stream creation ([getKyselyChanges]) *)

(** [a || b] on an optional string: the empty string is falsy. *)
Definition or_else (a : option string) (b : string) : string :=
  match a with
  | Some s => if decide (s = "") then b else s
  | None => b
  end.

(** The constants of a new stream; [random] is
    [Math.random().toString().slice(2)] and [clientId] the client that
    [pg.connect()] handed out. *)
Definition newStream (clientId : nat) (tables : list string)
    (pkm : option (gmap string (list string)))
    (options : option WalConfigOptions) (random : string) : Stream :=
  let slotId := or_else (options ≫= userSlotId) random in
  {| client := clientId;
     slotName := "app_slot_" +:+ slotId;
     schema := default "public" (options ≫= assumeSchema);
     pollInterval := default POLL_INTERVAL_MS (options ≫= userPollInterval);
     onlyIncludeTables := tables;
     primaryKeyMap := pkm;
     isUsingMultipleSchemas := existsb (fun table => includes "." table) tables;
     intervalActive := true;
     clientReleased := false;
     subjectStopped := false |}.

(** [getKyselyChanges], with the outcome of its [createSlot] query: the
    stream exists (and its timer runs) only when the slot was created. *)
Definition getKyselyChanges (clientId : nat) (tables : list string)
    (pkm : option (gmap string (list string)))
    (options : option WalConfigOptions) (random : string)
    (o : QueryOutcome) (w : World) : World * option Thrown :=
  let s := newStream clientId tables pkm options random in
  let w1 := log [QCreateSlot (client s) (slotName s)] w in
  match createSlot o with
  | Some e => (w1, Some e)
  | None => (set_streams (streams w1 ++ [s]) w1, None)
  end.

(** *** Change poller ([getChanges]) *)

(** What the callers waiting at [await getChanges(...)] in their catch
    block do once that call has settled with [r] ([None]: it returned):
    each throws (its own error when the inner call returned, the inner
    call's error otherwise) and its [finally] clears the flag. *)
Fixpoint unwind (r : option Thrown) (outers : list Thrown) (w : World)
    : World * option Thrown :=
  match outers with
  | [] => (w, r)
  | e :: rest => unwind (Some (default e r)) rest (set_flag false w)
  end.

(** A call made for stream [i] has settled with [r]; the promise the
    interval callback returned is rejected when the outermost call
    threw. *)
Definition settle_poll (i : nat) (r : option Thrown) (outers : list Thrown)
    (w : World) : World :=
  let '(w1, r1) := unwind r outers w in
  match r1 with
  | None => w1
  | Some e => log [UnhandledRejection i e] w1
  end.

(** The [finally] block of a call that had passed the guard, then the
    above. *)
Definition finally_poll (i : nat) (r : option Thrown) (outers : list Thrown)
    (w : World) : World :=
  settle_poll i r outers (set_flag false w).

(** [getChanges] up to its first [await]: either it returns at once
    because the flag is set, or it sets the flag and sends the request. *)
Definition getChanges (i : nat) (s : Stream) (outers : list Thrown)
    (w : World) : World * option Call :=
  if currentlyGettingChanges w then (settle_poll i None outers w, None)
  else
    (log [QGetChanges (client s) (slotName s)
            (addTablesString (schema s) (onlyIncludeTables s))]
         (set_flag true w),
     Some {| call_stream := i; frame := AwaitGetChanges; outers := outers |}).

(** [changeHandler(changes)]: every decoded event goes to
    [subject.next], which does nothing on a completed subject. *)
Definition changeHandler (i : nat) (s : Stream) (payloads : list Payload)
    (w : World) : World :=
  if subjectStopped s then w
  else log (Emit i <$> decode_payloads s payloads) w.

(** The catch block of [getChanges] up to its [await createSlot]. *)
Definition getChanges_catch (i : nat) (s : Stream) (e : Thrown)
    (outers : list Thrown) (w : World) : World * option Call :=
  if negb (isError e) then
    (finally_poll i
       (Some (invariantError
                "Expected error thrown from pg_logical_slot_get_changes to be an instance of Error, but got something else"))
       outers w, None)
  else if decide (code e = Some "42704") then
    (log [Warn "Replication slot went away?";
          QCreateSlot (client s) (slotName s)] w,
     Some {| call_stream := i; frame := AwaitCreateSlot e; outers := outers |})
  else (finally_poll i (Some e) outers w, None).

(** *** Teardown *)

Definition stopped_stream (s : Stream) : Stream :=
  {| client := client s; slotName := slotName s; schema := schema s;
     pollInterval := pollInterval s;
     onlyIncludeTables := onlyIncludeTables s;
     primaryKeyMap := primaryKeyMap s;
     isUsingMultipleSchemas := isUsingMultipleSchemas s;
     intervalActive := false;
     clientReleased := clientReleased s;
     subjectStopped := subjectStopped s |}.

Definition released_completed_stream (s : Stream) : Stream :=
  {| client := client s; slotName := slotName s; schema := schema s;
     pollInterval := pollInterval s;
     onlyIncludeTables := onlyIncludeTables s;
     primaryKeyMap := primaryKeyMap s;
     isUsingMultipleSchemas := isUsingMultipleSchemas s;
     intervalActive := intervalActive s;
     clientReleased := true;
     subjectStopped := true |}.

(** What [client.release()] throws when the client has been released
    before: pg's pool hands the client out with a [release] that accepts
    one call and throws on any later one. *)
Definition doubleRelease : Thrown :=
  newError "Release called on client which has already been released to the pool.".

(** [teardown] up to the [await] in [dropSlot]. *)
Definition teardown (i : nat) (w : World) : World * option Call :=
  match streams w !! i with
  | None => (w, None)
  | Some s =>
      (log [QDropSlot (client s) (slotName s)]
           (set_streams (<[i := stopped_stream s]> (streams w)) w),
       Some {| call_stream := i; frame := AwaitDropSlot; outers := [] |})
  end.

(** The rest of [teardown]: [client.release()], then
    [subject.complete()]. *)
Definition teardown_rest (i : nat) (s : Stream) (w : World) : World :=
  if clientReleased s then log [TeardownRejected i doubleRelease] w
  else
    log ([Released (client s)]
           ++ (if subjectStopped s then [] else [Completed i])
           ++ [TeardownResolved i])
        (set_streams (<[i := released_completed_stream s]> (streams w)) w).

(** *** Resuming a suspended call with the outcome of its query *)

Definition resume (s : Stream) (c : Call) (o : QueryOutcome) (w : World)
    : World * option Call :=
  let i := call_stream c in
  match frame c with
  | AwaitGetChanges =>
      match o with
      | QueryOk rows =>
          match map_toLsnData rows with
          | inr changes =>
              (finally_poll i None (outers c) (changeHandler i s changes w), None)
          | inl e => getChanges_catch i s e (outers c) w
          end
      | QueryThrows e => getChanges_catch i s e (outers c) w
      end
  | AwaitCreateSlot e =>
      match createSlot o with
      | Some e' => (finally_poll i (Some e') (outers c) w, None)
      | None =>
          getChanges i s (e :: outers c)
            (log [Warn "Recreated slot; retrying getChanges (no further output implies success)"] w)
      end
  | AwaitDropSlot =>
      match dropSlot o with
      | Some e' => (log [TeardownRejected i e'] w, None)
      | None => (teardown_rest i s w, None)
      end
  end.

(** *** The process: timers fire, queries settle, teardown is called *)

Definition tick (i : nat) (w : World) : World * option Call :=
  match streams w !! i with
  | Some s => if intervalActive s then getChanges i s [] w else (w, None)
  | None => (w, None)
  end.

Definition spawn (r : World * option Call) : World :=
  match r.2 with
  | Some c => set_calls (calls r.1 ++ [c]) r.1
  | None => r.1
  end.

Inductive Event :=
| Tick (i : nat)
| Settle (k : nat) (o : QueryOutcome)
| Teardown (i : nat).

Definition step (ev : Event) (w : World) : World :=
  match ev with
  | Tick i => spawn (tick i w)
  | Teardown i => spawn (teardown i w)
  | Settle k o =>
      match calls w !! k with
      | None => w
      | Some c =>
          match streams w !! call_stream c with
          | None => w
          | Some s => spawn (resume s c o (set_calls (delete k (calls w)) w))
          end
      end
  end.

Definition run (evs : list Event) (w : World) : World :=
  foldl (fun st ev => step ev st) w evs.

(** *** Notions used by the properties *)

(** The identity columns the caller declared for a table: the entry of
    [primaryKeyMap], or the single column [id]. *)
Definition declaredIdentity (s : Stream) (table : string) : list string :=
  default ["id"] (primaryKeyMap s ≫= (.!! table)).

(** The frames of a [getChanges] call. *)
Definition is_poll (f : Frame) : bool :=
  match f with
  | AwaitGetChanges | AwaitCreateSlot _ => true
  | AwaitDropSlot => false
  end.

(** The get-changes requests of a trace. *)
Definition is_getChangesRequest (e : Effect) : bool :=
  match e with
  | QGetChanges _ _ _ => true
  | _ => false
  end.

Definition getChangesRequests (t : list Effect) : list Effect :=
  List.filter is_getChangesRequest t.

Definition change_table (c : WALChange) : string :=
  match c with
  | WALInsertChange _ t _ _ _ | WALUpdateChange _ t _ _ _ _
  | WALDeleteChange _ t _ | WALOtherChange _ _ t => t
  end.

(** The flag is set only while a [getChanges] call is suspended. *)
Definition guard_inv (w : World) : Prop :=
  currentlyGettingChanges w = true →
  ∃ c, c ∈ calls w ∧ is_poll (frame c) = true.

Definition change_schema (c : WALChange) : string :=
  match c with
  | WALInsertChange sc _ _ _ _ | WALUpdateChange sc _ _ _ _ _
  | WALDeleteChange sc _ _ | WALOtherChange _ sc _ => sc
  end.

(** The event kind of a raw record, none for a record of another kind. *)
Definition change_kind (c : WALChange) : option EventKind :=
  match c with
  | WALInsertChange _ _ _ _ _ => Some EInsert
  | WALUpdateChange _ _ _ _ _ _ => Some EUpdate
  | WALDeleteChange _ _ _ => Some EDelete
  | WALOtherChange _ _ _ => None
  end.

(** The suspended [getChanges] calls of the process. *)
Definition poll_calls (w : World) : list Call :=
  List.filter (fun c => is_poll (frame c)) (calls w).

Definition one_poll_inv (w : World) : Prop :=
  length (poll_calls w) = if currentlyGettingChanges w then 1 else 0.

(** The events a trace delivered through the subject of stream [i]. *)
Definition is_emit_of (i : nat) (e : Effect) : bool :=
  match e with
  | Emit j _ => Nat.eqb i j
  | _ => false
  end.

Definition emits (i : nat) (t : list Effect) : list Effect :=
  List.filter (is_emit_of i) t.

(** [s'] is a later state of the stream [s]: the same constants, and what
    teardown did is not undone. *)
Definition later_stream (s s' : Stream) : Prop :=
  client s' = client s ∧ slotName s' = slotName s ∧ schema s' = schema s ∧
  pollInterval s' = pollInterval s ∧
  onlyIncludeTables s' = onlyIncludeTables s ∧
  primaryKeyMap s' = primaryKeyMap s ∧
  isUsingMultipleSchemas s' = isUsingMultipleSchemas s ∧
  (intervalActive s = false → intervalActive s' = false) ∧
  (clientReleased s = true → clientReleased s' = true) ∧
  (subjectStopped s = true → subjectStopped s' = true).

End WalSubject.

(** ** Concrete streams, records and handlers used in the examples *)

Module Examples.
Import WalSubject.

Definition slotGone : Thrown :=
  {| isError := true; code := Some "42704";
     message := "replication slot does not exist" |}.

(** One stream over [schema_two.widgets] (multi-schema mode), default
    options. *)
Definition oneStream : World :=
  (getKyselyChanges 7 ["schema_two.widgets"] None None "123" (QueryOk []) initial).1.

(** A second stream over [widgets], created in the same process. *)
Definition twoStreams : World :=
  (getKyselyChanges 8 ["widgets"] None None "456" (QueryOk []) oneStream).1.

Definition widgets : Stream := newStream 8 ["widgets"] None None "456".

Definition widgetsIdKind : Stream :=
  newStream 8 ["widgets"] (Some {["widgets" := ["id"; "kind"]]}) None "789".

Definition insertInSchemaTwo : WALChange :=
  WALInsertChange "schema_two" "widgets" ["id"; "kind"] ["integer"; "text"]
    [JNum 1; JStr "baseball"].

(** A delete whose [oldkeys] carry the whole row. *)
Definition deleteWholeRow : WALChange :=
  WALDeleteChange "public" "widgets"
    {| keynames := ["id"; "kind"]; keytypes := ["integer"; "text"];
       keyvalues := [JNum 1; JStr "baseball"] |}.

(** A delete whose [oldkeys] carry the primary key only. *)
Definition deleteKeyOnly : WALChange :=
  WALDeleteChange "public" "widgets"
    {| keynames := ["id"]; keytypes := ["integer"]; keyvalues := [JNum 1] |}.

(** Handlers for [cards] that accept every insert. *)
Definition cardsHandlers : gmap string (@ObserveQuery.TableMapHandler nat) :=
  {[ "cards" := {| ObserveQuery.h_insert := Some (fun _ _ => ObserveQuery.Returns true);
                   ObserveQuery.h_update := None;
                   ObserveQuery.h_delete := None |} ]}.

(** Handlers for [cards] whose insert handler always rejects. *)
Definition rejectingHandlers : gmap string (@ObserveQuery.TableMapHandler nat) :=
  {[ "cards" := {| ObserveQuery.h_insert := Some (fun _ _ => ObserveQuery.Throws);
                   ObserveQuery.h_update := None;
                   ObserveQuery.h_delete := None |} ]}.

Definition cardInserted : SubjectChangeEvent :=
  InsertEvent "cards" {[ "id" := JNum 1 ]}.

(** Two inserts are delivered; their handlers settle in the other order. *)
Definition twoAccepted : list (@ObserveQuery.Action nat string) :=
  [ObserveQuery.Deliver cardInserted; ObserveQuery.Deliver cardInserted;
   ObserveQuery.HandlerSettles 1; ObserveQuery.HandlerSettles 0].

(** The stream of [oneStream]. *)
Definition schemaTwo : Stream := newStream 7 ["schema_two.widgets"] None None "123".

(** A batch of one row with two records, and the payload it parses to. *)
Definition goodRows : list Row :=
  [{| row_lsn := "0/16B2D50"; row_data := Some [insertInSchemaTwo; deleteKeyOnly] |}].

Definition goodPayloads : list Payload :=
  [{| lsn := "0/16B2D50"; change := [insertInSchemaTwo; deleteKeyOnly] |}].

(** The same batch followed by a row whose [data] is not JSON. *)
Definition brokenRow : Row := {| row_lsn := "0/16B2D88"; row_data := None |}.

Definition connectionLost : Thrown :=
  {| isError := true; code := Some "57P01";
     message := "terminating connection due to administrator command" |}.

Definition pluginMissing : Thrown :=
  {| isError := true; code := Some "58P01";
     message := "could not access file wal2json" |}.

End Examples.

(** ** Properties of the reactive query runner *)

Module RunnerProperties.
Import ObserveQuery.

Section Properties.

Context {Result Err : Type}.
Context (handlerMap : gmap string (@TableMapHandler Result)).

Abbreviation State := (@RunnerState Result Err).
Abbreviation Worlds := (@World Result Err).

(** The setters copy the whole record, so the steps are evaluated by need:
    only the fields a goal projects are computed. *)
Ltac runner_eval :=
  lazy beta iota zeta delta
    [step change_delivered handler_settled query_resolved query_rejected
     reRunQuery runQueryAndCallNextIfExists unsubscribe subscriber_complete
     subscriber_error subscriber_stop subscriber_next subscribe fresh
     set_running set_queue set_lastResult set_awaiting set_pendingQueries
     set_queryCalls set_handlerCalls set_accepted option_list
     runningQuery queueNextQuery lastResult closed subscribed awaiting
     pendingQueries queryCalls handlerCalls accepted delivered] in *.

Ltac runner_case :=
  match goal with
  | |- context [match ?x with _ => _ end] => is_var x; destruct x eqn:?
  | |- context [match ?x with _ => _ end] =>
      lazymatch x with
      | context [match _ with _ => _ end] => fail
      | _ => destruct x eqn:?
      end
  end.

Ltac crush_runner :=
  runner_eval; repeat (runner_case; runner_eval);
  intuition (subst; try congruence; try lia).

(** *** The coalescing invariant *)

Lemma step_preserves_inv (a : Action) (s : State) :
  coalescing_inv s → coalescing_inv (step handlerMap a s).
Proof.
  unfold coalescing_inv. intros [Hle Hnone].
  destruct s as [rq qn lr cl sb aw pq qc hc ac dl]; simpl in *.
  destruct a; crush_runner.
Qed.

Lemma run_preserves_inv (acts : list Action) (s : State) :
  coalescing_inv s → coalescing_inv (run handlerMap acts s).
Proof.
  revert s. induction acts as [|a acts IH]; intros s Hs; [exact Hs|].
  simpl. apply IH. now apply step_preserves_inv.
Qed.

Lemma subscribe_inv (stopped : option (option Err)) :
  coalescing_inv (subscribe stopped : State).
Proof.
  unfold coalescing_inv, subscribe. destruct stopped as [[e|]|]; crush_runner.
Qed.

(** C2. From subscription on, whatever changes are delivered and in
    whatever order handler promises and query promises settle (several
    [next] callbacks may be suspended at their handler at once), at most
    one [query()] promise is pending at any time. *)
Theorem at_most_one_query_in_flight
    (stopped : option (option Err)) (acts : list Action) :
  (pendingQueries (run handlerMap acts (subscribe stopped : State)) ≤ 1)%nat.
Proof.
  apply (run_preserves_inv acts), subscribe_inv.
Qed.

(** *** Coalescing while a query is in flight *)

(** Every run starts with nothing queued: right after a step that called
    [query()], one query is pending and [queueNextQuery] is undefined. *)
Lemma run_starts_unqueued (a : Action) (s : State) :
  coalescing_inv s → queryCalls (step handlerMap a s) ≠ queryCalls s →
  pendingQueries (step handlerMap a s) = 1 ∧
  queueNextQuery (step handlerMap a s) = false.
Proof.
  unfold coalescing_inv. intros [Hle Hnone].
  destruct s as [rq qn lr cl sb aw pq qc hc ac dl].
  destruct a; crush_runner.
Qed.

(** While [runningQuery] is set, a step that is not the completion of the
    query starts nothing, and queues a run exactly when it accepts an
    invalidation. *)
Lemma in_flight_step (a : Action) (s : State) :
  is_completion a = false → runningQuery s ≠ None →
  let s' := step handlerMap a s in
  runningQuery s' = runningQuery s ∧
  pendingQueries s' = pendingQueries s ∧
  queryCalls s' = queryCalls s ∧
  (accepted s ≤ accepted s')%nat ∧
  queueNextQuery s' = queueNextQuery s || (accepted s <? accepted s')%nat.
Proof.
  intros Ha Hrun.
  destruct s as [rq qn lr cl sb aw pq qc hc ac dl]; simpl in *.
  assert (Hlt : (ac <? S ac)%nat = true) by (apply Nat.ltb_lt; lia).
  assert (Hirr : (ac <? ac)%nat = false) by (apply Nat.ltb_irrefl).
  destruct a; try discriminate Ha; crush_runner;
    rewrite ?Hlt, ?Hirr, ?orb_true_r, ?orb_false_r; try reflexivity;
    try congruence.
Qed.

Lemma in_flight_run (acts : list Action) (s : State) :
  Forall (fun a => is_completion a = false) acts → runningQuery s ≠ None →
  let s' := run handlerMap acts s in
  runningQuery s' = runningQuery s ∧
  pendingQueries s' = pendingQueries s ∧
  queryCalls s' = queryCalls s ∧
  (accepted s ≤ accepted s')%nat ∧
  queueNextQuery s' = queueNextQuery s || (accepted s <? accepted s')%nat.
Proof.
  revert s. induction acts as [|a acts IH]; intros s Hall Hrun; simpl.
  - rewrite Nat.ltb_irrefl, orb_false_r. repeat split; lia.
  - inversion Hall as [|? ? Ha Hrest]; subst.
    destruct (in_flight_step a s Ha Hrun) as (E1 & E2 & E3 & E4 & E5).
    assert (Hrun1 : runningQuery (step handlerMap a s) ≠ None) by congruence.
    destruct (IH _ Hrest Hrun1) as (F1 & F2 & F3 & F4 & F5).
    repeat split; try congruence; try lia.
    rewrite F5, E5, <- orb_assoc. f_equal.
    destruct (Nat.ltb_spec (accepted s) (accepted (step handlerMap a s)));
      destruct (Nat.ltb_spec (accepted (step handlerMap a s))
                  (accepted (run handlerMap acts (step handlerMap a s))));
      destruct (Nat.ltb_spec (accepted s)
                  (accepted (run handlerMap acts (step handlerMap a s))));
      simpl; try reflexivity; lia.
Qed.

(** C1. Take any reachable state [s] in which a query is in flight and
    nothing is queued, and any sequence [acts] of deliveries, handler
    settlements and subscription events during which the query does not
    settle and at least one invalidation is accepted.  Then no [query()] is
    called during [acts]; when the query resolves, [query()] is called
    exactly once more, whatever the number of accepted invalidations; that
    follow-up is then the one query in flight with nothing queued, so its
    own completion starts no further run. *)
Theorem coalescing_exactly_one_follow_up
    (stopped : option (option Err)) (pre acts : list Action) (r r2 : Result) :
  let s : State := run handlerMap pre (subscribe stopped) in
  let s' := run handlerMap acts s in
  let s'' := step handlerMap (QueryResolves r) s' in
  pendingQueries s = 1 → queueNextQuery s = false →
  Forall (fun a => is_completion a = false) acts →
  (accepted s < accepted s')%nat →
  queryCalls s' = queryCalls s ∧
  queryCalls s'' = S (queryCalls s) ∧
  pendingQueries s'' = 1 ∧
  queueNextQuery s'' = false ∧
  queryCalls (step handlerMap (QueryResolves r2) s'') = queryCalls s''.
Proof.
  intros s s' s'' Hpend Hqueue Hacts Hacc.
  assert (Hinv : coalescing_inv s)
    by (apply (run_preserves_inv pre), subscribe_inv).
  assert (Hrun : runningQuery s ≠ None).
  { intros Hnone. destruct Hinv as [_ Hn]. destruct (Hn Hnone). lia. }
  destruct (in_flight_run acts s Hacts Hrun) as (E1 & E2 & E3 & E4 & E5).
  fold s' in E1, E2, E3, E4, E5.
  apply Nat.ltb_lt in Hacc. rewrite Hqueue, Hacc in E5. simpl in E5.
  rewrite Hpend in E2.
  split; [exact E3|]. rewrite <- E3. subst s''. clearbody s'. clear -E2 E5.
  destruct s' as [rq qn lr cl sb aw pq qc hc ac dl]; simpl in *. subst.
  crush_runner.
Qed.

(** *** Unsubscribing *)

Lemma closed_step (a : Action) (s : State) :
  closed s = true → subscribed s = false →
  let s' := step handlerMap a s in
  closed s' = true ∧ subscribed s' = false ∧
  delivered s' = delivered s ∧ handlerCalls s' = handlerCalls s.
Proof.
  intros Hc Hs.
  destruct s as [rq qn lr cl sb aw pq qc hc ac dl]; simpl in *. subst.
  destruct a; crush_runner.
Qed.

Lemma closed_implies_detached (pre : list Action) (stopped : option (option Err)) :
  let s : State := run handlerMap pre (subscribe stopped) in
  closed s = true → subscribed s = false.
Proof.
  simpl.
  assert (H0 : closed (subscribe stopped : State) = true →
               subscribed (subscribe stopped : State) = false)
    by (destruct stopped as [[e|]|]; crush_runner).
  revert H0. generalize (subscribe stopped : State).
  induction pre as [|a pre IH]; intros s Hs; simpl; [exact Hs|].
  apply IH. clear IH.
  destruct s as [rq qn lr cl sb aw pq qc hc ac dl]; simpl in *.
  destruct a; crush_runner; auto.
Qed.

(** After [unsubscribe()] the subscriber gets no notification and no
    handler is called, whatever happens next. *)
Lemma unsubscribed_is_silent
    (stopped : option (option Err)) (pre acts : list Action) :
  let u : State := step handlerMap Unsubscribe (run handlerMap pre (subscribe stopped)) in
  delivered (run handlerMap acts u) = delivered u ∧
  handlerCalls (run handlerMap acts u) = handlerCalls u.
Proof.
  intros u.
  assert (Hu : closed u = true ∧ subscribed u = false).
  { subst u. pose proof (closed_implies_detached pre stopped) as Hd.
    simpl in Hd. revert Hd.
    generalize (run handlerMap pre (subscribe stopped : State)).
    intros s Hd. destruct s as [rq qn lr cl sb aw pq qc hc ac dl]; simpl in *.
    unfold unsubscribe, subscriber_stop; simpl. destruct cl; simpl; auto. }
  clearbody u. revert u Hu.
  induction acts as [|a acts IH]; intros u [Hc Hs]; simpl; [auto|].
  destruct (closed_step a u Hc Hs) as (C1 & C2 & C3 & C4).
  destruct (IH _ (conj C1 C2)) as [D1 D2]. split; congruence.
Qed.

(** *** Several subscribers *)

Lemma subscribers_only (k : nat) :
  let w : Worlds := world_run handlerMap (replicate k Subscribe) empty_world in
  subjectStopped w = None ∧ runners w = replicate k (subscribe None).
Proof.
  simpl. induction k as [|k IH].
  - split; reflexivity.
  - replace (replicate (S k) (@Subscribe Result Err))
      with (replicate k (@Subscribe Result Err) ++ [Subscribe])
      by (rewrite <- replicate_cons_app; reflexivity).
    unfold world_run in *. rewrite foldl_app. simpl.
    destruct IH as [I1 I2]. unfold observable_subscribe. simpl.
    rewrite I1, I2. split; [reflexivity|].
    rewrite <- replicate_cons_app. reflexivity.
Qed.

(** C10. Every call of [subscribe] on the observable appends a runner
    built from scratch, which depends on nothing but the state of the
    subject; [k] subscriptions give [k] runners and [k] calls of [query()],
    one pending per runner, each with its own empty [lastResult], queue
    and handler waits and its own subscription to the subject; and a step
    of one runner leaves every other runner as it was. *)
Theorem subscribers_are_independent :
  (∀ w : Worlds,
      runners (world_step handlerMap Subscribe w)
      = runners w ++ [subscribe (subjectStopped w)]) ∧
  (∀ k : nat,
      let w : Worlds := world_run handlerMap (replicate k Subscribe) empty_world in
      length (runners w) = k ∧
      sum_list (queryCalls <$> runners w) = k ∧
      ∀ i s, runners w !! i = Some s →
             queryCalls s = 1 ∧ pendingQueries s = 1 ∧
             runningQuery s = Some 1 ∧ queueNextQuery s = false ∧
             lastResult s = None ∧ awaiting s = [] ∧ subscribed s = true) ∧
  (∀ (w : Worlds) (i j : nat) (a : Action),
      i ≠ j →
      runners (world_step handlerMap (At i a) w) !! j = runners w !! j).
Proof.
  split; [reflexivity|]. split.
  - intros k w. destruct (subscribers_only k) as [_ Hr]. fold w in Hr.
    rewrite Hr. split; [apply length_replicate|]. split.
    + rewrite fmap_replicate. simpl. clear.
      induction k as [|k IH]; simpl; [reflexivity|]. now rewrite IH.
    + intros i s Hi. apply lookup_replicate in Hi as [-> _].
      repeat split; reflexivity.
  - intros w i j a Hij. simpl. apply list_lookup_alter_ne. exact Hij.
Qed.

End Properties.

(** *** Concrete runs *)

(** Two inserts are delivered and accepted while the first query is in
    flight: one follow-up run. *)
Lemma coalescing_exactly_one_follow_up_witness :
  let s : @RunnerState nat string := run Examples.cardsHandlers [] (subscribe None) in
  let s' := run Examples.cardsHandlers Examples.twoAccepted s in
  let s'' := step Examples.cardsHandlers (QueryResolves 5) s' in
  (pendingQueries s = 1 ∧ queueNextQuery s = false ∧
   (accepted s < accepted s')%nat) ∧
  (queryCalls s' = queryCalls s ∧
   queryCalls s'' = S (queryCalls s) ∧
   pendingQueries s'' = 1 ∧
   queueNextQuery s'' = false ∧
   queryCalls (step Examples.cardsHandlers (QueryResolves 6) s'') = queryCalls s'').
Proof.
  intros s s' s''. split.
  - vm_compute. repeat split. lia.
  - apply (coalescing_exactly_one_follow_up (Err := string) Examples.cardsHandlers
             None [] Examples.twoAccepted 5 6).
    + vm_compute. reflexivity.
    + vm_compute. reflexivity.
    + unfold Examples.twoAccepted. repeat constructor.
    + vm_compute. lia.
Defined.

(** C4. A follow-up queued before [unsubscribe()] is started when the
    query in flight resolves, and a handler still pending at
    [unsubscribe()] starts a query when it accepts: [query()] is called
    after the subscriber has unsubscribed.  (No [next] reaches the
    subscriber in either run.) *)
Theorem query_starts_after_unsubscribe :
  let queued : @RunnerState nat string :=
    run Examples.cardsHandlers
      [Deliver Examples.cardInserted; HandlerSettles 0; Unsubscribe]
      (subscribe None) in
  let waiting : @RunnerState nat string :=
    run Examples.cardsHandlers
      [QueryResolves 4; Deliver Examples.cardInserted; Unsubscribe]
      (subscribe None) in
  (closed queued = true ∧ queryCalls queued = 1 ∧
   queryCalls (step Examples.cardsHandlers (QueryResolves 5) queued) = 2 ∧
   pendingQueries (step Examples.cardsHandlers (QueryResolves 5) queued) = 1 ∧
   nexts (step Examples.cardsHandlers (QueryResolves 5) queued) = []) ∧
  (closed waiting = true ∧ queryCalls waiting = 1 ∧
   queryCalls (step Examples.cardsHandlers (HandlerSettles 0) waiting) = 2 ∧
   nexts (step Examples.cardsHandlers (HandlerSettles 0) waiting) = [4]).
Proof. vm_compute. repeat split. Qed.

End RunnerProperties.

(** ** Properties of the change tailer *)

Module TailerProperties.
Import WalSubject Examples.

(** *** Event decoder *)

(** The table of an emitted event is [tableKey] of the record's table. *)
Lemma decode_table (s : Stream) (c : WALChange) (ev : SubjectChangeEvent) :
  ev ∈ decode s c → event_table ev = tableKey s (change_table c).
Proof.
  destruct c; simpl; intros Hin;
    try (apply list_elem_of_singleton in Hin; subst; reflexivity).
  inversion Hin.
Qed.

Lemma tableKey_single (s : Stream) (t : string) :
  isUsingMultipleSchemas s = false → tableKey s t = t.
Proof. unfold tableKey. now intros ->. Qed.

Lemma tableKey_multi (s : Stream) (t : string) :
  isUsingMultipleSchemas s = true → tableKey s t = schema s +:+ "." +:+ t.
Proof. unfold tableKey. now intros ->. Qed.

(** The table of every emitted event: the record's table, with the
    stream's assumed schema in front in multi-schema mode. *)
Lemma event_table_policy (s : Stream) (c : WALChange) (ev : SubjectChangeEvent) :
  ev ∈ decode s c →
  event_table ev = if isUsingMultipleSchemas s
                   then schema s +:+ "." +:+ change_table c
                   else change_table c.
Proof.
  intros Hin. rewrite (decode_table s c ev Hin). unfold tableKey.
  now destruct (isUsingMultipleSchemas s).
Qed.

Lemma fromEntries_snoc (ps : list (string * JValue)) (p : string * JValue) :
  fromEntries (ps ++ [p]) = <[p.1 := p.2]> (fromEntries ps).
Proof. unfold fromEntries. now rewrite foldl_app. Qed.

(** The keys of [Object.fromEntries(pairs)] are the first components. *)
Lemma dom_fromEntries (ps : list (string * JValue)) :
  dom (fromEntries ps) = list_to_set (ps.*1).
Proof.
  induction ps as [|p ps IH] using rev_ind.
  - unfold fromEntries. simpl. apply dom_empty_L.
  - rewrite fromEntries_snoc, dom_insert_L, IH, fmap_app, list_to_set_app_L.
    simpl. rewrite (right_id_L ∅ (∪)). apply (comm_L (∪)).
Qed.

Lemma pairs_snoc (names : list string) (name : string) (values : list JValue) :
  pairs (names ++ [name]) values
  = pairs names values ++ [(name, default JUndefined (values !! length names))].
Proof.
  unfold pairs. rewrite imap_app. simpl. now rewrite Nat.add_0_r.
Qed.

Lemma pairs_names (names : list string) (values : list JValue) :
  (pairs names values).*1 = names.
Proof.
  induction names as [|n names IH] using rev_ind; [reflexivity|].
  rewrite pairs_snoc, fmap_app, IH. reflexivity.
Qed.

(** The value kept for a column is the one at its last position. *)
Lemma fromEntries_pairs_lookup (names : list string) (values : list JValue)
    (i : nat) (name : string) :
  names !! i = Some name → name ∉ drop (S i) names →
  fromEntries (pairs names values) !! name
  = Some (default JUndefined (values !! i)).
Proof.
  revert i. induction names as [|n names IH] using rev_ind; intros i Hi Hlast.
  - discriminate.
  - rewrite pairs_snoc, fromEntries_snoc. simpl.
    destruct (decide (i = length names)) as [->|Hne].
    + rewrite lookup_app_r, Nat.sub_diag in Hi by lia. simpl in Hi.
      injection Hi as ->. apply lookup_insert_eq.
    + assert (Hlt : i < length names).
      { apply lookup_lt_Some in Hi. rewrite length_app in Hi. simpl in Hi. lia. }
      rewrite lookup_app_l in Hi by exact Hlt.
      rewrite drop_app_le in Hlast by lia.
      rewrite lookup_insert_ne by set_solver.
      apply IH; [exact Hi|set_solver].
Qed.

(** C5 (amended). A delete record is emitted as one delete event whose
    [identity] has exactly the columns named in the record's [oldkeys],
    each with the value at its (last) position there, [undefined] when
    [keyvalues] is shorter; the stream's [primaryKeyMap] has no part in
    it. *)
Theorem delete_identity_is_oldkeys (s : Stream) (sc t : string) (k : Keys) :
  ∃ idn,
    decode s (WALDeleteChange sc t k) = [DeleteEvent (tableKey s t) idn] ∧
    dom idn = list_to_set (keynames k) ∧
    (∀ i name, keynames k !! i = Some name → name ∉ drop (S i) (keynames k) →
               idn !! name = Some (default JUndefined (keyvalues k !! i))) ∧
    (∀ pkm, decode
              {| client := client s; slotName := slotName s; schema := schema s;
                 pollInterval := pollInterval s;
                 onlyIncludeTables := onlyIncludeTables s;
                 primaryKeyMap := pkm;
                 isUsingMultipleSchemas := isUsingMultipleSchemas s;
                 intervalActive := intervalActive s;
                 clientReleased := clientReleased s;
                 subjectStopped := subjectStopped s |}
              (WALDeleteChange sc t k)
            = [DeleteEvent (tableKey s t) idn]).
Proof.
  eexists. split; [reflexivity|]. split; [|split].
  - now rewrite dom_fromEntries, pairs_names.
  - intros i name. apply fromEntries_pairs_lookup.
  - reflexivity.
Qed.

(** C5, counterexample. With no [primaryKeyMap], a delete whose [oldkeys]
    carry [id] and [kind] is delivered with [kind] in its identity, so its
    columns are not the declared ones ([id] alone); with
    [primaryKeyMap = {widgets: [id, kind]}], a delete whose [oldkeys] carry
    [id] only is delivered without [kind]. *)
Lemma delete_identity_not_narrowed :
  (∃ idn, decode widgets deleteWholeRow = [DeleteEvent "widgets" idn] ∧
          declaredIdentity widgets "widgets" = ["id"] ∧
          idn !! "kind" = Some (JStr "baseball") ∧
          dom idn ≠ list_to_set (declaredIdentity widgets "widgets")) ∧
  (∃ idn, decode widgetsIdKind deleteKeyOnly = [DeleteEvent "widgets" idn] ∧
          declaredIdentity widgetsIdKind "widgets" = ["id"; "kind"] ∧
          idn !! "kind" = None ∧
          dom idn ≠ list_to_set (declaredIdentity widgetsIdKind "widgets")).
Proof.
  split; eexists; (split; [reflexivity|]).
  - assert (Hkind : fromEntries (pairs ["id"; "kind"] [JNum 1; JStr "baseball"]) !! "kind"
                    = Some (JStr "baseball")) by (vm_compute; reflexivity).
    split; [vm_compute; reflexivity|]. split; [exact Hkind|].
    intros Hdom.
    assert (Hin : "kind" ∈ dom (fromEntries (pairs ["id"; "kind"] [JNum 1; JStr "baseball"])))
      by (apply elem_of_dom; eauto).
    cbn [deleteWholeRow keynames keyvalues] in Hdom. rewrite Hdom in Hin.
    replace (declaredIdentity widgets "widgets") with ["id"] in Hin
      by (vm_compute; reflexivity).
    set_solver.
  - assert (Hkind : fromEntries (pairs ["id"] [JNum 1]) !! "kind" = None)
      by (vm_compute; reflexivity).
    split; [vm_compute; reflexivity|]. split; [exact Hkind|].
    intros Hdom.
    assert (Hin : "kind" ∈ dom (fromEntries (pairs ["id"] [JNum 1]))).
    { cbn [deleteKeyOnly keynames keyvalues] in Hdom. rewrite Hdom.
      replace (declaredIdentity widgetsIdKind "widgets") with ["id"; "kind"]
        by (vm_compute; reflexivity).
      set_solver. }
    apply elem_of_dom in Hin as [v Hv]. congruence.
Qed.

(** C6. A stream configured with [schema_two.widgets] is in multi-schema
    mode; an insert into [schema_two.widgets] is delivered with table
    [public.widgets]: the prefix is the stream's assumed schema, not the
    record's own. *)
Theorem multi_schema_table_uses_assumed_schema :
  isUsingMultipleSchemas (newStream 7 ["schema_two.widgets"] None None "123") = true ∧
  change_schema insertInSchemaTwo +:+ "." +:+ change_table insertInSchemaTwo
    = "schema_two.widgets" ∧
  event_table <$> decode (newStream 7 ["schema_two.widgets"] None None "123")
                    insertInSchemaTwo
    = ["public.widgets"].
Proof. repeat split. Qed.

(** *** Change poller *)

Lemma lookup_snoc_last {A} (l : list A) (x : A) : (l ++ [x]) !! length l = Some x.
Proof. rewrite lookup_app_r, Nat.sub_diag by lia. reflexivity. Qed.

Lemma delete_snoc_last {A} (l : list A) (x : A) : delete (length l) (l ++ [x]) = l.
Proof.
  induction l as [|y l IH]; simpl; [reflexivity|]. now rewrite IH.
Qed.

Lemma unwind_flag (r : option Thrown) (outers : list Thrown) (w : World) :
  currentlyGettingChanges (unwind r outers w).1
  = match outers with [] => currentlyGettingChanges w | _ => false end.
Proof.
  revert r w. induction outers as [|e rest IH]; intros r w; simpl; [reflexivity|].
  rewrite IH. destruct rest; reflexivity.
Qed.

Lemma unwind_streams (r : option Thrown) (outers : list Thrown) (w : World) :
  streams (unwind r outers w).1 = streams w.
Proof.
  revert r w. induction outers as [|e rest IH]; intros r w; simpl; [reflexivity|].
  now rewrite IH.
Qed.

Lemma settle_poll_flag (i : nat) (r : option Thrown) (outers : list Thrown) (w : World) :
  currentlyGettingChanges (settle_poll i r outers w)
  = match outers with [] => currentlyGettingChanges w | _ => false end.
Proof.
  unfold settle_poll. pose proof (unwind_flag r outers w) as H.
  destruct (unwind r outers w) as [w1 [e|]]; simpl in *; exact H.
Qed.

Lemma finally_poll_flag (i : nat) (r : option Thrown) (outers : list Thrown) (w : World) :
  currentlyGettingChanges (finally_poll i r outers w) = false.
Proof.
  unfold finally_poll. rewrite settle_poll_flag. now destruct outers.
Qed.

Lemma getChanges_settled_flag (i : nat) (s : Stream) (e : Thrown)
    (outers : list Thrown) (w w' : World) :
  getChanges i s (e :: outers) w = (w', None) →
  currentlyGettingChanges w' = false.
Proof.
  unfold getChanges. destruct (currentlyGettingChanges w); [|discriminate].
  intros [= <-]. now rewrite settle_poll_flag.
Qed.

(** A [getChanges] call that had passed the guard leaves the flag clear
    when it settles: every way out of its body runs the [finally]. *)
Lemma settled_poll_clears_flag
    (s : Stream) (c : Call) (o : QueryOutcome) (w w' : World) :
  is_poll (frame c) = true →
  resume s c o w = (w', None) →
  currentlyGettingChanges w' = false.
Proof.
  intros Hpoll Hres.
  unfold resume in Hres. destruct (frame c) as [|e|]; [| |discriminate].
  - assert (Hcatch : ∀ e, getChanges_catch (call_stream c) s e (outers c) w = (w', None) →
                          currentlyGettingChanges w' = false).
    { intros e. unfold getChanges_catch.
      destruct (negb (isError e)); [intros [= <-]; apply finally_poll_flag|].
      destruct (decide (code e = Some "42704")); [discriminate|].
      intros [= <-]; apply finally_poll_flag. }
    destruct o as [rows|e]; [|now apply (Hcatch e)].
    destruct (map_toLsnData rows) as [e|changes]; [now apply (Hcatch e)|].
    injection Hres as <-. apply finally_poll_flag.
  - destruct (createSlot o) as [e'|].
    + injection Hres as <-. apply finally_poll_flag.
    + eapply getChanges_settled_flag; exact Hres.
Qed.

(** C9. When a [getChanges] call that had passed the guard settles,
    however its queries turned out (returned rows, threw, or went through
    the 42704 recovery), the flag is clear, and the next tick of any
    stream whose timer runs sends its request. *)
Theorem poll_settles_with_guard_clear
    (s : Stream) (c : Call) (o : QueryOutcome) (w w' : World) :
  is_poll (frame c) = true →
  resume s c o w = (w', None) →
  currentlyGettingChanges w' = false ∧
  ∀ j sj, streams w' !! j = Some sj → intervalActive sj = true →
          tick j w'
          = (log [QGetChanges (client sj) (slotName sj)
                    (addTablesString (schema sj) (onlyIncludeTables sj))]
                 (set_flag true w'),
             Some {| call_stream := j; frame := AwaitGetChanges; outers := [] |}).
Proof.
  intros Hpoll Hres.
  pose proof (settled_poll_clears_flag s c o w w' Hpoll Hres) as Hflag.
  split; [exact Hflag|].
  intros j sj Hj Hact. unfold tick, getChanges. now rewrite Hj, Hact, Hflag.
Qed.

(** The recovery path: the slot was re-created, the nested call returns
    at once, the call rejects and the flag is clear. *)
Lemma poll_settles_with_guard_clear_witness :
  is_poll (AwaitCreateSlot slotGone) = true ∧
  resume widgets {| call_stream := 1; frame := AwaitCreateSlot slotGone; outers := [] |}
    (QueryOk []) (set_flag true twoStreams)
  = (log [Warn "Recreated slot; retrying getChanges (no further output implies success)";
          UnhandledRejection 1 slotGone] twoStreams, None) ∧
  currentlyGettingChanges
    (log [Warn "Recreated slot; retrying getChanges (no further output implies success)";
          UnhandledRejection 1 slotGone] twoStreams) = false.
Proof.
  split; [reflexivity|]. split; [reflexivity|].
  apply (poll_settles_with_guard_clear widgets
           {| call_stream := 1; frame := AwaitCreateSlot slotGone; outers := [] |}
           (QueryOk []) (set_flag true twoStreams)); reflexivity.
Defined.

(** *** The flag and the suspended calls *)

Lemma unwind_calls (r : option Thrown) (outers : list Thrown) (w : World) :
  calls (unwind r outers w).1 = calls w.
Proof.
  revert r w. induction outers as [|e rest IH]; intros r w; simpl; [reflexivity|].
  now rewrite IH.
Qed.

Lemma settle_poll_calls (i : nat) (r : option Thrown) (outers : list Thrown) (w : World) :
  calls (settle_poll i r outers w) = calls w.
Proof.
  unfold settle_poll. pose proof (unwind_calls r outers w) as H.
  destruct (unwind r outers w) as [w1 [e|]]; simpl in *; exact H.
Qed.

Lemma getChanges_calls (i : nat) (s : Stream) (outers : list Thrown) (w : World) :
  calls (getChanges i s outers w).1 = calls w.
Proof.
  unfold getChanges. destruct (currentlyGettingChanges w); simpl; [|reflexivity].
  apply settle_poll_calls.
Qed.

Lemma getChanges_suspends_poll (i : nat) (s : Stream) (outers : list Thrown)
    (w : World) (c : Call) :
  (getChanges i s outers w).2 = Some c → is_poll (frame c) = true.
Proof.
  unfold getChanges. destruct (currentlyGettingChanges w); simpl; [discriminate|].
  now intros [= <-].
Qed.

Lemma resume_calls (s : Stream) (c : Call) (o : QueryOutcome) (w : World) :
  calls (resume s c o w).1 = calls w.
Proof.
  unfold resume, getChanges_catch, finally_poll, changeHandler, teardown_rest.
  repeat (match goal with
          | |- context [match ?x with _ => _ end] => destruct x; simpl
          | |- context [if ?x then _ else _] => destruct x; simpl
          end);
    rewrite ?getChanges_calls, ?settle_poll_calls; reflexivity.
Qed.

Lemma resume_suspends_poll (s : Stream) (c c' : Call) (o : QueryOutcome) (w : World) :
  (resume s c o w).2 = Some c' → is_poll (frame c') = true.
Proof.
  unfold resume, getChanges_catch.
  destruct (frame c) as [|e|].
  - destruct o as [rows|e]; [destruct (map_toLsnData rows) as [e|changes]|]; simpl;
      try discriminate;
      (destruct (negb (isError e)); simpl; [discriminate|]);
      (destruct (decide (code e = Some "42704")); simpl; [|discriminate]);
      now intros [= <-].
  - destruct (createSlot o); simpl; [discriminate|]. apply getChanges_suspends_poll.
  - destruct (dropSlot o); simpl; discriminate.
Qed.

Lemma resume_teardown_flag (s : Stream) (c : Call) (o : QueryOutcome) (w : World) :
  is_poll (frame c) = false →
  (resume s c o w).2 = None ∧
  currentlyGettingChanges (resume s c o w).1 = currentlyGettingChanges w.
Proof.
  unfold resume, teardown_rest. destruct (frame c); try discriminate. intros _.
  simpl. destruct (clientReleased s); simpl; split; reflexivity.
Qed.

Lemma elem_of_delete_other {A} (l : list A) (k : nat) (x y : A) :
  x ∈ l → l !! k = Some y → x ≠ y → x ∈ delete k l.
Proof.
  intros Hx Hk Hne. apply list_elem_of_lookup in Hx as [j Hj].
  apply list_elem_of_lookup.
  destruct (Nat.lt_trichotomy j k) as [Hlt|[->|Hgt]].
  - exists j. now rewrite list_lookup_delete_lt.
  - congruence.
  - exists (pred j). rewrite list_lookup_delete_ge by lia.
    now replace (S (pred j)) with j by lia.
Qed.

Lemma step_preserves_guard_inv (ev : Event) (w : World) :
  guard_inv w → guard_inv (step ev w).
Proof.
  intros Hinv. destruct ev as [i|k o|i]; unfold step.
  - unfold tick. destruct (streams w !! i) as [s|]; [|exact Hinv].
    destruct (intervalActive s); [|exact Hinv].
    unfold getChanges, spawn. destruct (currentlyGettingChanges w) eqn:Hf; simpl.
    + unfold settle_poll. simpl. exact Hinv.
    + intros _. eexists. split; [apply elem_of_app; right; apply list_elem_of_singleton; reflexivity|].
      reflexivity.
  - destruct (calls w !! k) as [c|] eqn:Hk; [|exact Hinv].
    destruct (streams w !! call_stream c) as [s|]; [|exact Hinv].
    set (w0 := set_calls (delete k (calls w)) w).
    pose proof (resume_calls s c o w0) as Hcalls.
    destruct (is_poll (frame c)) eqn:Hp.
    + unfold spawn. destruct (resume s c o w0) as [w' [c'|]] eqn:Hres; simpl in *.
      * intros _. exists c'. split.
        -- apply elem_of_app. right. now apply list_elem_of_singleton.
        -- apply (resume_suspends_poll s c c' o w0). now rewrite Hres.
      * intros Hf. pose proof (settled_poll_clears_flag s c o w0 w' Hp Hres) as Hclear.
        congruence.
    + destruct (resume_teardown_flag s c o w0 Hp) as [Hnone Hflag].
      unfold spawn. rewrite Hnone. intros Hf. rewrite Hflag in Hf.
      destruct (Hinv Hf) as (c1 & Hin & Hp1).
      exists c1. split; [|exact Hp1]. rewrite Hcalls. simpl.
      apply (elem_of_delete_other _ k c1 c Hin Hk). congruence.
  - unfold teardown. destruct (streams w !! i) as [s|]; [|exact Hinv].
    unfold spawn. simpl. intros Hf. destruct (Hinv Hf) as (c1 & Hin & Hp1).
    exists c1. split; [|exact Hp1]. apply elem_of_app. now left.
Qed.

(** In every world reached from one with the flag clear, the flag is set
    only while a [getChanges] call is suspended at a query, and it is
    clear again when that call settles. *)
Lemma guard_held_by_a_suspended_poll (evs : list Event) (w : World) :
  currentlyGettingChanges w = false → guard_inv (run evs w).
Proof.
  intros Hf. assert (Hinv : guard_inv w) by (intros Ht; congruence).
  clear Hf. revert w Hinv.
  induction evs as [|ev evs IH]; intros w Hinv; [exact Hinv|].
  simpl. apply IH. now apply step_preserves_guard_inv.
Qed.

Lemma step_tick (w : World) (i : nat) (s : Stream) :
  streams w !! i = Some s → intervalActive s = true →
  currentlyGettingChanges w = false →
  step (Tick i) w
  = {| currentlyGettingChanges := true; streams := streams w;
       calls := calls w ++ [{| call_stream := i; frame := AwaitGetChanges; outers := [] |}];
       trace := trace w ++ [QGetChanges (client s) (slotName s)
                              (addTablesString (schema s) (onlyIncludeTables s))] |}.
Proof.
  intros Hs Hact Hflag. unfold step, tick, getChanges, spawn.
  rewrite Hs, Hact, Hflag. reflexivity.
Qed.

Lemma step_settle_last (fl : bool) (ss : list Stream) (cs : list Call)
    (tr : list Effect) (c : Call) (s : Stream) (o : QueryOutcome) :
  ss !! call_stream c = Some s →
  step (Settle (length cs) o)
    {| currentlyGettingChanges := fl; streams := ss; calls := cs ++ [c]; trace := tr |}
  = spawn (resume s c o
             {| currentlyGettingChanges := fl; streams := ss; calls := cs; trace := tr |}).
Proof.
  intros Hs. unfold step. simpl. rewrite lookup_snoc_last, Hs.
  unfold set_calls. simpl. now rewrite delete_snoc_last.
Qed.

(** The slot-missing path, for any stream: one get-changes request, the
    slot re-created on the same client, no second request, and the
    original error rejects the poll. *)
Lemma slot_missing_path (w : World) (i : nat) (s : Stream) (e : Thrown) (rows : list Row) :
  streams w !! i = Some s → intervalActive s = true →
  currentlyGettingChanges w = false →
  isError e = true → code e = Some "42704" →
  let k := length (calls w) in
  run [Tick i; Settle k (QueryThrows e); Settle k (QueryOk rows)] w
  = log [QGetChanges (client s) (slotName s)
           (addTablesString (schema s) (onlyIncludeTables s));
         Warn "Replication slot went away?";
         QCreateSlot (client s) (slotName s);
         Warn "Recreated slot; retrying getChanges (no further output implies success)";
         UnhandledRejection i e] w.
Proof.
  intros Hs Hact Hflag Herr Hcode k. subst k.
  unfold run. cbn [foldl]. rewrite (step_tick w i s Hs Hact Hflag).
  rewrite (step_settle_last _ _ _ _ _ s) by exact Hs.
  unfold resume, getChanges_catch. cbn [frame call_stream outers].
  rewrite Herr. cbn [negb].
  destruct (decide (code e = Some "42704")) as [_|Hn]; [|contradiction].
  unfold spawn, log, set_calls. cbn -[step].
  rewrite (step_settle_last _ _ _ _ _ s) by exact Hs.
  unfold resume, getChanges, settle_poll, spawn, log. cbn.
  destruct w as [fl ss cs tr]. cbn in *. subst fl.
  rewrite <- !app_assoc. reflexivity.
Qed.

(** C3. A poll fails with code 42704: the slot is re-created on the same
    client and two warnings are printed, but the retry sends no request
    (it returns at once, the flag being still set) and the poll then
    rejects with the original error. *)
Theorem slot_missing_retry_skipped_and_rethrown :
  let w := run [Tick 0; Settle 0 (QueryThrows slotGone); Settle 0 (QueryOk [])] oneStream in
  trace w
  = trace oneStream ++
    [QGetChanges 7 "app_slot_123" "schema_two.widgets";
     Warn "Replication slot went away?";
     QCreateSlot 7 "app_slot_123";
     Warn "Recreated slot; retrying getChanges (no further output implies success)";
     UnhandledRejection 0 slotGone] ∧
  length (getChangesRequests (trace w)) = 1 ∧
  calls w = [] ∧ currentlyGettingChanges w = false.
Proof. repeat split. Qed.

Lemma tick_skipped_while_flag_set (w : World) (j : nat) :
  currentlyGettingChanges w = true → step (Tick j) w = w.
Proof.
  intros Hf. unfold step, tick, getChanges, spawn. rewrite Hf.
  destruct (streams w !! j) as [s|]; [|reflexivity].
  destruct (intervalActive s); reflexivity.
Qed.

(** C7. Two streams in one process: alone, a tick of the second stream
    sends its request; while a poll of the first stream is in flight, the
    tick of the second stream does nothing, the flag both read having been
    set by the first. *)
Theorem other_stream_tick_is_skipped :
  (* alone, the second stream's tick sends its request *)
  trace (step (Tick 1) twoStreams)
  = trace twoStreams ++ [QGetChanges 8 "app_slot_456" "public.widgets"] ∧
  (* while the first stream's poll is in flight, it does not *)
  calls (step (Tick 0) twoStreams)
  = [{| call_stream := 0; frame := AwaitGetChanges; outers := [] |}] ∧
  step (Tick 1) (step (Tick 0) twoStreams) = step (Tick 0) twoStreams ∧
  trace (step (Tick 1) (step (Tick 0) twoStreams))
  = trace twoStreams ++ [QGetChanges 7 "app_slot_123" "schema_two.widgets"] ∧
  (* and the first stream's poll changed what the second one reads as its guard *)
  currentlyGettingChanges twoStreams = false ∧
  currentlyGettingChanges (step (Tick 0) twoStreams) = true.
Proof. repeat split. Qed.




End TailerProperties.

(** ** Lifecycle of a runner: errors, quiet steps, results, the end of the subject *)

Module RunnerLifecycle.
Import ObserveQuery.

Section Lifecycle.

Context {Result Err : Type}.
Context (handlerMap : gmap string (@TableMapHandler Result)).

Abbreviation State := (@RunnerState Result Err).
Abbreviation Worlds := (@World Result Err).

(** The setters copy the whole record, so the steps are evaluated by need:
    only the fields a goal projects are computed. *)
Ltac runner_eval :=
  lazy beta iota zeta delta
    [step change_delivered handler_settled query_resolved query_rejected
     reRunQuery runQueryAndCallNextIfExists unsubscribe subscriber_complete
     subscriber_error subscriber_stop subscriber_next subscribe fresh
     set_running set_queue set_lastResult set_awaiting set_pendingQueries
     set_queryCalls set_handlerCalls set_accepted option_list
     runningQuery queueNextQuery lastResult closed subscribed awaiting
     pendingQueries queryCalls handlerCalls accepted delivered] in *.

Ltac runner_case :=
  match goal with
  | |- context [match ?x with _ => _ end] => is_var x; destruct x eqn:?
  | |- context [match ?x with _ => _ end] =>
      lazymatch x with
      | context [match _ with _ => _ end] => fail
      | _ => destruct x eqn:?
      end
  end.

Ltac crush_runner :=
  runner_eval; repeat (runner_case; runner_eval);
  intuition (subst; try congruence; try lia).

(** Once a run has rejected, [runningQuery] stays set with no query
    pending: nothing can start a query any more. *)
Lemma errored_step (a : Action) (s : State) :
  closed s = true → subscribed s = false →
  runningQuery s ≠ None → pendingQueries s = 0 →
  let s' := step handlerMap a s in
  closed s' = true ∧ subscribed s' = false ∧
  runningQuery s' ≠ None ∧ pendingQueries s' = 0 ∧
  queryCalls s' = queryCalls s ∧ delivered s' = delivered s ∧
  handlerCalls s' = handlerCalls s.
Proof.
  intros Hc Hs Hr Hp.
  destruct s as [rq qn lr cl sb aw pq qc hc ac dl]; simpl in *. subst.
  destruct a; crush_runner.
Qed.

(** When the query in flight rejects, an open subscriber gets the error as
    its last notification; from then on [query()] is never called again,
    nothing is delivered and no handler is called. *)
Theorem rejection_is_terminal
    (stopped : option (option Err)) (pre acts : list Action) (e : Err) :
  let s : State := run handlerMap pre (subscribe stopped) in
  let s1 := step handlerMap (QueryRejects e) s in
  pendingQueries s = 1 →
  (closed s = false → delivered s1 = delivered s ++ [Error e]) ∧
  queryCalls (run handlerMap acts s1) = queryCalls s ∧
  pendingQueries (run handlerMap acts s1) = 0 ∧
  delivered (run handlerMap acts s1) = delivered s1 ∧
  handlerCalls (run handlerMap acts s1) = handlerCalls s.
Proof.
  intros s s1 Hpend.
  assert (Hinv : coalescing_inv s)
    by (apply (RunnerProperties.run_preserves_inv handlerMap pre), RunnerProperties.subscribe_inv).
  assert (Hdet : closed s = true → subscribed s = false)
    by (apply (RunnerProperties.closed_implies_detached handlerMap pre stopped)).
  assert (Hrun : runningQuery s ≠ None).
  { intros Hnone. destruct Hinv as [_ Hn]. destruct (Hn Hnone). lia. }
  assert (H1 : closed s1 = true ∧ subscribed s1 = false ∧ runningQuery s1 ≠ None ∧
               pendingQueries s1 = 0 ∧ queryCalls s1 = queryCalls s ∧
               handlerCalls s1 = handlerCalls s ∧
               (closed s = false → delivered s1 = delivered s ++ [Error e])).
  { subst s1. clearbody s. clear Hinv.
    destruct s as [rq qn lr cl sb aw pq qc hc ac dl]; simpl in *. subst.
    crush_runner. }
  destruct H1 as (Hc & Hs & Hr & Hp & Hq & Hh & Hd).
  split; [exact Hd|]. rewrite <- Hq, <- Hh. clear Hq Hh Hd. clearbody s1.
  revert s1 Hc Hs Hr Hp.
  induction acts as [|a acts IH]; intros s1 Hc Hs Hr Hp; simpl; [auto|].
  destruct (errored_step a s1 Hc Hs Hr Hp) as (C1 & C2 & C3 & C4 & C5 & C6 & C7).
  destruct (IH _ C1 C2 C3 C4) as (D1 & D2 & D3 & D4).
  repeat split; congruence.
Qed.

(** A step that neither settles the query nor accepts an invalidation (a
    change without a handler for its table or kind, a handler that returns
    false or rejects, unsubscribe, the end of the subject) leaves
    [runningQuery], [queueNextQuery], [lastResult], the pending and started
    queries and the delivered results as they were.  Unless it is
    unsubscribe or the end of the subject, it also leaves the subscriber
    as it was: neither closed nor detached by the step, and sent nothing,
    so a handler that rejects does not fail or complete the observable. *)
Theorem only_accepting_and_completing_steps_matter (a : Action) (s : State) :
  is_completion a = false → accepted (step handlerMap a s) = accepted s →
  let s' := step handlerMap a s in
  runningQuery s' = runningQuery s ∧ queueNextQuery s' = queueNextQuery s ∧
  pendingQueries s' = pendingQueries s ∧ queryCalls s' = queryCalls s ∧
  lastResult s' = lastResult s ∧ nexts s' = nexts s ∧
  (ends_subscription a = false →
   closed s' = closed s ∧ subscribed s' = subscribed s ∧
   delivered s' = delivered s).
Proof.
  intros Ha.
  destruct s as [rq qn lr cl sb aw pq qc hc ac dl]; unfold nexts.
  destruct a; try discriminate Ha; crush_runner;
    rewrite ?omap_app; simpl; rewrite ?app_nil_r; try reflexivity;
    try discriminate.
Qed.


(** As long as no query has rejected, a run is in flight exactly while
    [runningQuery] is set. *)
Lemma live_step (a : Action) (s : State) :
  is_rejection a = false →
  coalescing_inv s ∧ (runningQuery s ≠ None → pendingQueries s = 1) →
  coalescing_inv (step handlerMap a s) ∧
  (runningQuery (step handlerMap a s) ≠ None → pendingQueries (step handlerMap a s) = 1).
Proof.
  intros Ha [Hinv Hlive].
  split; [now apply RunnerProperties.step_preserves_inv|].
  unfold coalescing_inv in Hinv. destruct Hinv as [Hle Hnone].
  destruct s as [rq qn lr cl sb aw pq qc hc ac dl].
  destruct a; try discriminate Ha; crush_runner.
Qed.

Lemma live_run (acts : list Action) (s : State) :
  Forall (fun a => is_rejection a = false) acts →
  coalescing_inv s ∧ (runningQuery s ≠ None → pendingQueries s = 1) →
  coalescing_inv (run handlerMap acts s) ∧
  (runningQuery (run handlerMap acts s) ≠ None →
   pendingQueries (run handlerMap acts s) = 1).
Proof.
  revert s. induction acts as [|a acts IH]; intros s Hall Hs; [exact Hs|].
  inversion Hall as [|? ? Ha Hrest]; subst.
  simpl. apply IH; [exact Hrest|]. now apply live_step.
Qed.

(** As long as no query has rejected, an accepted invalidation is not
    lost.  With no run in progress it calls [query()] at once.  Otherwise
    a query is pending and a run is left queued; whatever happens before
    that query settles, the run stays queued, and when the query resolves
    [query()] is called again. *)
Theorem accepted_invalidation_is_not_dropped
    (stopped : option (option Err)) (pre mid : list Action) (k : nat) (r : Result) :
  let s : State := run handlerMap pre (subscribe stopped) in
  let s' := step handlerMap (HandlerSettles k) s in
  let t := run handlerMap mid s' in
  Forall (fun a => is_rejection a = false) pre →
  accepted s' ≠ accepted s →
  (runningQuery s = None ∧
   queryCalls s' = S (queryCalls s) ∧ pendingQueries s' = 1) ∨
  (runningQuery s ≠ None ∧
   queryCalls s' = queryCalls s ∧ pendingQueries s' = 1 ∧
   queueNextQuery s' = true ∧
   (Forall (fun a => is_completion a = false) mid →
    queryCalls t = queryCalls s' ∧ pendingQueries t = 1 ∧
    queueNextQuery t = true ∧
    queryCalls (step handlerMap (QueryResolves r) t) = S (queryCalls s'))).
Proof.
  intros s s' t Hpre.
  assert (Hlive : coalescing_inv s ∧ (runningQuery s ≠ None → pendingQueries s = 1)).
  { apply live_run; [exact Hpre|]. split; [apply RunnerProperties.subscribe_inv|].
    intros _. destruct stopped as [[e|]|]; crush_runner. }
  destruct Hlive as [Hinv Hlive].
  destruct (runningQuery s) as [n|] eqn:Hrq.
  - intros Hacc. right.
    assert (Hs' : queryCalls s' = queryCalls s ∧ pendingQueries s' = 1 ∧
                  queueNextQuery s' = true ∧ runningQuery s' ≠ None).
    { assert (Hp : pendingQueries s = 1) by (apply Hlive; discriminate).
      subst t s'. clearbody s. clear Hinv Hlive Hpre.
      destruct s as [rq qn lr cl sb aw pq qc hc ac dl]; simpl in *. subst.
      revert Hacc. crush_runner. }
    destruct Hs' as (Hq & Hp & Hqn & Hr).
    split; [discriminate|]. split; [exact Hq|]. split; [exact Hp|]. split; [exact Hqn|].
    intros Hmid.
    destruct (RunnerProperties.in_flight_run handlerMap mid s' Hmid Hr)
      as (E1 & E2 & E3 & _ & E5).
    fold t in E1, E2, E3, E5. rewrite Hqn in E5. simpl in E5. rewrite Hp in E2.
    split; [exact E3|]. split; [exact E2|]. split; [exact E5|].
    rewrite <- E3. clearbody t. clear -E2 E5.
    destruct t as [rq qn lr cl sb aw pq qc hc ac dl]; simpl in *. subst.
    crush_runner.
  - intros Hacc. left. split; [reflexivity|].
    unfold coalescing_inv in Hinv. destruct Hinv as [Hle Hnone].
    subst t s'. clearbody s. clear Hlive Hpre.
    destruct s as [rq qn lr cl sb aw pq qc hc ac dl]; simpl in *. subst.
    destruct (Hnone eq_refl) as [-> ->].
    revert Hacc. crush_runner.
Qed.

Lemma last_result_step (a : Action) (s : State) :
  (closed s = false → lastResult s = last (nexts s)) →
  closed (step handlerMap a s) = false →
  lastResult (step handlerMap a s) = last (nexts (step handlerMap a s)).
Proof.
  destruct s as [rq qn lr cl sb aw pq qc hc ac dl]; unfold nexts.
  destruct a; crush_runner;
    rewrite ?omap_app; simpl; rewrite ?app_nil_r, ?last_snoc; auto.
Qed.

(** While the subscriber is open, [lastResult] (what the handlers are
    given) is the value delivered last, and undefined before the first
    delivery. *)
Theorem lastResult_is_last_delivered
    (stopped : option (option Err)) (acts : list Action) :
  let s : State := run handlerMap acts (subscribe stopped) in
  closed s = false → lastResult s = last (nexts s).
Proof.
  simpl.
  assert (H0 : closed (subscribe stopped : State) = false →
               lastResult (subscribe stopped : State) = last (nexts (subscribe stopped)))
    by (unfold nexts; destruct stopped as [[e|]|]; crush_runner).
  revert H0. generalize (subscribe stopped : State).
  induction acts as [|a acts IH]; intros s Hs; simpl; [exact Hs|].
  apply IH. now apply last_result_step.
Qed.

(** Subscribing when the subject has already completed (or failed): the
    subscriber gets that one notification and nothing else, ever; the
    first query is started all the same, and no handler is ever called. *)
Theorem late_subscriber_is_stopped_at_once
    (how : option Err) (acts : list Action) :
  let s : State := subscribe (Some how) in
  queryCalls s = 1 ∧ pendingQueries s = 1 ∧
  delivered (run handlerMap acts s)
  = [match how with None => Complete | Some e => Error e end] ∧
  handlerCalls (run handlerMap acts s) = 0.
Proof.
  intros s.
  assert (Hs : closed s = true ∧ subscribed s = false ∧ queryCalls s = 1 ∧
               pendingQueries s = 1 ∧ handlerCalls s = 0 ∧
               delivered s = [match how with None => Complete | Some e => Error e end])
    by (subst s; destruct how; crush_runner).
  destruct Hs as (Hc & Hd & Hq & Hp & Hh & Hdel).
  split; [exact Hq|]. split; [exact Hp|]. rewrite <- Hdel, <- Hh.
  clear Hq Hp Hh Hdel. clearbody s. revert s Hc Hd.
  induction acts as [|a acts IH]; intros s Hc Hd; simpl; [auto|].
  destruct (RunnerProperties.closed_step handlerMap a s Hc Hd) as (C1 & C2 & C3 & C4).
  destruct (IH _ C1 C2) as [D1 D2]. split; congruence.
Qed.

Lemma results_step (a : Action) (s : State) :
  (length (nexts s) + pendingQueries s ≤ queryCalls s)%nat →
  (length (nexts (step handlerMap a s)) + pendingQueries (step handlerMap a s)
   ≤ queryCalls (step handlerMap a s))%nat.
Proof.
  destruct s as [rq qn lr cl sb aw pq qc hc ac dl]; unfold nexts.
  destruct a; crush_runner;
    rewrite ?omap_app, ?length_app in *; simpl in *; rewrite ?app_nil_r in *; simpl; try lia.
Qed.

(** Every delivered result is the result of a run of its own: the results
    delivered and the queries still pending never outnumber the calls of
    [query()]. *)
Theorem one_result_per_query_run
    (stopped : option (option Err)) (acts : list Action) :
  let s : State := run handlerMap acts (subscribe stopped) in
  (length (nexts s) + pendingQueries s ≤ queryCalls s)%nat.
Proof.
  simpl.
  assert (H0 : (length (nexts (subscribe stopped : State))
                + pendingQueries (subscribe stopped : State)
                ≤ queryCalls (subscribe stopped : State))%nat)
    by (unfold nexts; destruct stopped as [[e|]|]; crush_runner; simpl; lia).
  revert H0. generalize (subscribe stopped : State).
  induction acts as [|a acts IH]; intros s Hs; simpl; [exact Hs|].
  apply IH. now apply results_step.
Qed.


Lemma detached_step (a : Action) (s : State) :
  closed s = negb (subscribed s) →
  closed (step handlerMap a s) = negb (subscribed (step handlerMap a s)).
Proof.
  destruct s as [rq qn lr cl sb aw pq qc hc ac dl].
  destruct a; crush_runner.
Qed.

Lemma subject_end_step (a : Action) (s : State) :
  closed s = negb (subscribed s) →
  a = SubjectCompletes ∨ (∃ e, a = SubjectErrors e) →
  closed (step handlerMap a s) = true ∧ subscribed (step handlerMap a s) = false.
Proof.
  destruct s as [rq qn lr cl sb aw pq qc hc ac dl].
  intros H [->|[e ->]]; revert H; destruct sb, cl; crush_runner.
Qed.

Lemma world_step_inv (a : WorldAction) (w : Worlds) :
  world_inv w → world_inv (world_step handlerMap a w).
Proof.
  unfold world_inv. intros Hinv.
  destruct a as [|c| |e|j a]; unfold world_step.
  - intros i s Hi. unfold observable_subscribe in *. simpl in *.
    apply lookup_app_Some in Hi as [Hi|[_ Hi]]; [exact (Hinv i s Hi)|].
    apply list_lookup_singleton_Some in Hi as [_ <-].
    destruct (subjectStopped w) as [[e|]|]; crush_runner.
  - destruct (subjectStopped w) eqn:Hst; [rewrite <- Hst in *; exact Hinv|].
    cbn [runners subjectStopped]. intros i s Hi. rewrite list_lookup_fmap in Hi.
    destruct (runners w !! i) as [s0|] eqn:Hs0; [|discriminate].
    injection Hi as <-. destruct (Hinv i s0 Hs0) as [H1 _].
    split; [exact (detached_step (Deliver c) s0 H1)|congruence].
  - destruct (subjectStopped w) eqn:Hst; [rewrite <- Hst in *; exact Hinv|].
    cbn [runners subjectStopped]. intros i s Hi. rewrite list_lookup_fmap in Hi.
    destruct (runners w !! i) as [s0|] eqn:Hs0; [|discriminate].
    injection Hi as <-. destruct (Hinv i s0 Hs0) as [H1 _].
    destruct (subject_end_step SubjectCompletes s0 H1) as [Hc Hd]; [now left|].
    split; [exact (detached_step SubjectCompletes s0 H1)|intros _; exact (conj Hc Hd)].
  - destruct (subjectStopped w) eqn:Hst; [rewrite <- Hst in *; exact Hinv|].
    cbn [runners subjectStopped]. intros i s Hi. rewrite list_lookup_fmap in Hi.
    destruct (runners w !! i) as [s0|] eqn:Hs0; [|discriminate].
    injection Hi as <-. destruct (Hinv i s0 Hs0) as [H1 _].
    destruct (subject_end_step (SubjectErrors e) s0 H1) as [Hc Hd]; [right; eauto|].
    split; [exact (detached_step (SubjectErrors e) s0 H1)|intros _; exact (conj Hc Hd)].
  - cbn [runners subjectStopped]. intros i s Hi. destruct (decide (j = i)) as [->|Hne].
    + rewrite list_lookup_alter_eq in Hi.
      destruct (runners w !! i) as [s0|] eqn:Hs0; [|discriminate].
      injection Hi as <-. destruct (Hinv i s0 Hs0) as [H1 H2].
      split; [exact (detached_step a s0 H1)|].
      intros Hst. destruct (H2 Hst) as [Hc Hd].
      destruct (RunnerProperties.closed_step handlerMap a s0 Hc Hd) as (C1 & C2 & _).
      exact (conj C1 C2).
    + rewrite list_lookup_alter_ne in Hi by exact Hne. exact (Hinv i s Hi).
Qed.

(** Once the subject has completed or failed, every runner of the
    observable, subscribed before or after, is closed and detached: no
    step calls a handler or notifies its subscriber. *)
Theorem upstream_end_closes_every_runner
    (acts : list WorldAction) (i : nat) (s : State) :
  let w : Worlds := world_run handlerMap acts empty_world in
  subjectStopped w ≠ None → runners w !! i = Some s →
  closed s = true ∧ subscribed s = false ∧
  ∀ a, handlerCalls (step handlerMap a s) = handlerCalls s ∧
       delivered (step handlerMap a s) = delivered s.
Proof.
  intros w.
  assert (Hinv : world_inv w).
  { subst w. unfold world_run.
    assert (H0 : world_inv (empty_world : Worlds)) by (intros j s0 Hj; discriminate).
    revert H0. generalize (empty_world : Worlds).
    induction acts as [|a acts IH]; intros w0 H0; [exact H0|].
    simpl. apply IH. now apply world_step_inv. }
  intros Hst Hi.
  destruct (Hinv i s Hi) as [_ H2]. destruct (H2 Hst) as [Hc Hd].
  split; [exact Hc|]. split; [exact Hd|]. intros a.
  destruct (RunnerProperties.closed_step handlerMap a s Hc Hd) as (_ & _ & C3 & C4).
  split; assumption.
Qed.

End Lifecycle.

(** *** Concrete runs *)

Lemma rejection_is_terminal_witness :
  pendingQueries (run Examples.cardsHandlers [] (subscribe None : @RunnerState nat string)) = 1 ∧
  queryCalls
    (run Examples.cardsHandlers Examples.twoAccepted
       (step Examples.cardsHandlers (QueryRejects "timeout")
          (run Examples.cardsHandlers [] (subscribe None : @RunnerState nat string))))
  = queryCalls (run Examples.cardsHandlers [] (subscribe None : @RunnerState nat string)).
Proof.
  assert (H : pendingQueries
                (run Examples.cardsHandlers [] (subscribe None : @RunnerState nat string)) = 1)
    by (vm_compute; reflexivity).
  split; [exact H|].
  destruct (rejection_is_terminal Examples.cardsHandlers None []
              Examples.twoAccepted "timeout" H) as (_ & P & _).
  exact P.
Defined.

Lemma only_accepting_and_completing_steps_matter_witness :
  (is_completion (HandlerSettles (Err := string) (Result := nat) 0) = false ∧
   accepted (step Examples.rejectingHandlers (HandlerSettles 0)
               (run Examples.rejectingHandlers [Deliver Examples.cardInserted]
                  (subscribe None : @RunnerState nat string)))
   = accepted (run Examples.rejectingHandlers [Deliver Examples.cardInserted]
                 (subscribe None : @RunnerState nat string))) ∧
  closed (step Examples.rejectingHandlers (HandlerSettles 0)
            (run Examples.rejectingHandlers [Deliver Examples.cardInserted]
               (subscribe None : @RunnerState nat string)))
  = closed (run Examples.rejectingHandlers [Deliver Examples.cardInserted]
              (subscribe None : @RunnerState nat string)) ∧
  delivered (step Examples.rejectingHandlers (HandlerSettles 0)
               (run Examples.rejectingHandlers [Deliver Examples.cardInserted]
                  (subscribe None : @RunnerState nat string)))
  = delivered (run Examples.rejectingHandlers [Deliver Examples.cardInserted]
                 (subscribe None : @RunnerState nat string)).
Proof.
  split; [split; [reflexivity|vm_compute; reflexivity]|].
  destruct (only_accepting_and_completing_steps_matter Examples.rejectingHandlers
              (HandlerSettles 0)
              (run Examples.rejectingHandlers [Deliver Examples.cardInserted]
                 (subscribe None : @RunnerState nat string)))
    as (_ & _ & _ & _ & _ & _ & P).
  - reflexivity.
  - vm_compute. reflexivity.
  - destruct (P eq_refl) as (Pc & _ & Pd). exact (conj Pc Pd).
Defined.

Lemma accepted_invalidation_is_not_dropped_witness :
  (Forall (fun a => is_rejection a = false)
     [Deliver (Err := string) (Result := nat) Examples.cardInserted] ∧
   accepted (step Examples.cardsHandlers (HandlerSettles 0)
               (run Examples.cardsHandlers [Deliver Examples.cardInserted]
                  (subscribe None : @RunnerState nat string)))
   ≠ accepted (run Examples.cardsHandlers [Deliver Examples.cardInserted]
                 (subscribe None : @RunnerState nat string)) ∧
   Forall (fun a => is_completion a = false)
     [Deliver (Err := string) (Result := nat) Examples.cardInserted; HandlerSettles 0]) ∧
  queryCalls
    (step Examples.cardsHandlers (QueryResolves 5)
       (run Examples.cardsHandlers [Deliver Examples.cardInserted; HandlerSettles 0]
          (step Examples.cardsHandlers (HandlerSettles 0)
             (run Examples.cardsHandlers [Deliver Examples.cardInserted]
                (subscribe None : @RunnerState nat string)))))
  = 2.
Proof.
  assert (Hpre : Forall (fun a => is_rejection a = false)
                   [Deliver (Err := string) (Result := nat) Examples.cardInserted])
    by (repeat constructor).
  assert (Hmid : Forall (fun a => is_completion a = false)
                   [Deliver (Err := string) (Result := nat) Examples.cardInserted;
                    HandlerSettles 0])
    by (repeat constructor).
  split; [split; [exact Hpre|split; [vm_compute; discriminate|exact Hmid]]|].
  destruct (accepted_invalidation_is_not_dropped (Err := string) Examples.cardsHandlers
              None [Deliver Examples.cardInserted]
              [Deliver Examples.cardInserted; HandlerSettles 0] 0 5 Hpre)
    as [(P & _)|(_ & _ & _ & _ & P)].
  - vm_compute. discriminate.
  - vm_compute in P. discriminate P.
  - destruct (P Hmid) as (_ & _ & _ & Q). exact Q.
Defined.

Lemma lastResult_is_last_delivered_witness :
  closed (run Examples.cardsHandlers [QueryResolves 5]
            (subscribe None : @RunnerState nat string)) = false ∧
  lastResult (run Examples.cardsHandlers [QueryResolves 5]
                (subscribe None : @RunnerState nat string))
  = last (nexts (run Examples.cardsHandlers [QueryResolves 5]
                   (subscribe None : @RunnerState nat string))).
Proof.
  split; [vm_compute; reflexivity|].
  apply (lastResult_is_last_delivered (Err := string) Examples.cardsHandlers None
           [QueryResolves 5]).
  vm_compute. reflexivity.
Defined.

Lemma upstream_end_closes_every_runner_witness :
  subjectStopped (world_run (Err := string) Examples.cardsHandlers
                    [Subscribe; SubjectComplete] empty_world) ≠ None ∧
  runners (world_run (Err := string) Examples.cardsHandlers
             [Subscribe; SubjectComplete] empty_world) !! 0
  = Some (step Examples.cardsHandlers SubjectCompletes (subscribe None)) ∧
  closed (step Examples.cardsHandlers SubjectCompletes
            (subscribe None : @RunnerState nat string)) = true.
Proof.
  assert (H1 : subjectStopped (world_run (Err := string) Examples.cardsHandlers
                                 [Subscribe; SubjectComplete] empty_world) ≠ None)
    by (vm_compute; discriminate).
  split; [exact H1|]. split; [vm_compute; reflexivity|].
  destruct (upstream_end_closes_every_runner (Err := string) Examples.cardsHandlers
              [Subscribe; SubjectComplete] 0
              (step Examples.cardsHandlers SubjectCompletes (subscribe None)) H1)
    as (P & _).
  - vm_compute. reflexivity.
  - exact P.
Defined.

End RunnerLifecycle.

(** ** More on the change tailer: decoding, poll outcomes, streams over time *)

Module TailerBehaviour.
Import WalSubject Examples TailerProperties.

(** *** Table filter and decoding *)

Lemma prefix_append (n b : string) : String.prefix n (n +:+ b) = true.
Proof.
  induction n as [|a n IH]; simpl; [now destruct b|].
  destruct (ascii_dec a a); [exact IH|contradiction].
Qed.

Lemma includes_of_prefix (n hay : string) :
  String.prefix n hay = true → includes n hay = true.
Proof.
  intros H. destruct hay; cbn -[String.prefix]; rewrite H; reflexivity.
Qed.

Lemma includes_infix (a n b : string) : includes n (a +:+ n +:+ b) = true.
Proof.
  induction a as [|c a IH].
  - change (includes n (n +:+ b) = true).
    apply includes_of_prefix, prefix_append.
  - change (String.prefix n (String c (a +:+ n +:+ b))
            || includes n (a +:+ n +:+ b) = true).
    rewrite IH. apply orb_true_r.
Qed.

(** The [add-tables] option has one entry per configured table, in order,
    joined by commas; every entry is qualified: a table written with a dot
    is passed as it is, any other gets the schema and a dot in front. *)
Theorem addTables_entries_are_qualified (sch : string) (tables : list string) :
  ∃ qs, addTablesString sch tables = String.concat "," qs ∧
        length qs = length tables ∧
        ∀ i t, tables !! i = Some t →
               ∃ q, qs !! i = Some q ∧ includes "." q = true ∧
                    q = if includes "." t then t else sch +:+ "." +:+ t.
Proof.
  eexists. split; [reflexivity|]. split; [apply length_map|].
  intros i t Hi. eexists. split.
  - change (map ?f ?l) with (f <$> l). rewrite list_lookup_fmap, Hi. reflexivity.
  - split; [|reflexivity]. simpl. destruct (includes "." t) eqn:E; [exact E|].
    apply includes_infix.
Qed.

(** The events of a batch are the records of its payloads in order, one
    event per insert, update or delete record with the record's kind and
    table; records of any other kind give no event. *)
Theorem decode_keeps_order (s : Stream) (ps : list Payload) :
  (λ ev, (event_kind ev, event_table ev)) <$> decode_payloads s ps
  = omap (λ c, k ← change_kind c; Some (k, tableKey s (change_table c)))
         (ps ≫= change).
Proof.
  unfold decode_payloads.
  induction ps as [|p ps IH]; [reflexivity|].
  rewrite !bind_cons, fmap_app, omap_app, IH. f_equal. clear IH.
  induction (change p) as [|c cs IHc]; [reflexivity|].
  rewrite bind_cons, fmap_app, IHc. simpl. destruct c; reflexivity.
Qed.

(** [rows.map(toLsnData)] either parses every row, keeping each row's
    [lsn] and changes in order, or throws the [SyntaxError] of a row whose
    [data] is not JSON. *)
Theorem rows_parse_all_or_nothing (rows : list Row) :
  match map_toLsnData rows with
  | inr ps => lsn <$> ps = row_lsn <$> rows ∧
              (λ p, Some (change p)) <$> ps = row_data <$> rows
  | inl e => e = syntaxError ∧ ∃ r, r ∈ rows ∧ row_data r = None
  end.
Proof.
  induction rows as [|r rows IH]; simpl; [split; reflexivity|].
  unfold toLsnData. destruct (row_data r) as [cs|] eqn:Hr.
  - destruct (map_toLsnData rows) as [e|ps].
    + destruct IH as [-> (r' & Hin & Hnone)]. split; [reflexivity|].
      exists r'. split; [now apply list_elem_of_further|exact Hnone].
    + destruct IH as [H1 H2]. rewrite !fmap_cons, H1, H2. split; reflexivity.
  - split; [reflexivity|]. exists r. split; [apply list_elem_of_here|exact Hr].
Qed.

(** The [row] of an insert or update event has exactly the record's
    column names as keys; with distinct names each column has the value at
    its position ([undefined] past the end of [columnvalues]).  An update
    gives the same [row] whatever its [oldkeys] are. *)
Theorem row_is_the_columns (s : Stream) (sc t : string)
    (names types : list string) (values : list JValue) (k1 k2 : Keys) :
  ∃ row,
    decode s (WALInsertChange sc t names types values)
      = [InsertEvent (tableKey s t) row] ∧
    decode s (WALUpdateChange sc t names types values k1)
      = [UpdateEvent (tableKey s t) row] ∧
    decode s (WALUpdateChange sc t names types values k2)
      = [UpdateEvent (tableKey s t) row] ∧
    dom row = list_to_set names ∧
    (NoDup names →
     ∀ i name, names !! i = Some name →
               row !! name = Some (default JUndefined (values !! i))).
Proof.
  eexists. repeat split.
  - now rewrite dom_fromEntries, pairs_names.
  - intros Hnd i name Hi. apply fromEntries_pairs_lookup; [exact Hi|].
    intros Hin. apply list_elem_of_lookup in Hin as [j Hj].
    rewrite lookup_drop in Hj.
    pose proof (NoDup_lookup _ _ _ _ Hnd Hi Hj). lia.
Qed.

(** *** Outcomes of a poll *)

(** A poll whose query returns rows that all parse: one get-changes
    request, then every decoded event in order (none when the subject has
    completed); the flag is clear again, nothing is rejected and nothing
    else changes. *)
Theorem successful_poll (w : World) (i : nat) (s : Stream)
    (rows : list Row) (ps : list Payload) :
  streams w !! i = Some s → intervalActive s = true →
  currentlyGettingChanges w = false →
  map_toLsnData rows = inr ps →
  run [Tick i; Settle (length (calls w)) (QueryOk rows)] w
  = log (QGetChanges (client s) (slotName s)
           (addTablesString (schema s) (onlyIncludeTables s))
         :: (if subjectStopped s then [] else Emit i <$> decode_payloads s ps)) w.
Proof.
  intros Hs Hact Hflag Hrows.
  unfold run. cbn [foldl]. rewrite (step_tick w i s Hs Hact Hflag).
  rewrite (step_settle_last _ _ _ _ _ s) by exact Hs.
  unfold resume. cbn [frame call_stream outers]. rewrite Hrows.
  unfold finally_poll, settle_poll, changeHandler, spawn, log, set_flag. cbn.
  destruct w as [fl ss cs tr]. cbn in *. subst fl.
  destruct (subjectStopped s); cbn; rewrite <- ?app_assoc; reflexivity.
Qed.

(** One row whose [data] is not JSON: no event of the batch is delivered,
    not even those of the rows before it, and the poll rejects with the
    [SyntaxError]; the flag is clear again and the streams are untouched. *)
Theorem malformed_row_drops_the_batch (w : World) (i : nat) (s : Stream)
    (rows : list Row) (r : Row) :
  streams w !! i = Some s → intervalActive s = true →
  currentlyGettingChanges w = false →
  r ∈ rows → row_data r = None →
  run [Tick i; Settle (length (calls w)) (QueryOk rows)] w
  = log [QGetChanges (client s) (slotName s)
           (addTablesString (schema s) (onlyIncludeTables s));
         UnhandledRejection i syntaxError] w.
Proof.
  intros Hs Hact Hflag Hin Hnone.
  assert (Hrows : map_toLsnData rows = inl syntaxError).
  { clear -Hin Hnone. induction rows as [|r' rows IH]; [inversion Hin|].
    simpl. unfold toLsnData. destruct (row_data r') eqn:Hr'; [|reflexivity].
    apply elem_of_cons in Hin as [->|Hin]; [congruence|].
    now rewrite (IH Hin). }
  unfold run. cbn [foldl]. rewrite (step_tick w i s Hs Hact Hflag).
  rewrite (step_settle_last _ _ _ _ _ s) by exact Hs.
  unfold resume. cbn [frame call_stream outers]. rewrite Hrows.
  unfold getChanges_catch, finally_poll, settle_poll, spawn, log, set_flag. cbn.
  destruct w as [fl ss cs tr]. cbn in *. subst fl.
  rewrite <- ?app_assoc; reflexivity.
Qed.

(** A get-changes query that throws anything but an [Error] of code
    42704: the poll rejects (with the error, or with the invariant's error
    when the thrown value is no [Error]); no event is delivered, the
    subject is neither failed nor completed, and the flag is clear again. *)
Theorem failed_query_rejects_the_poll (w : World) (i : nat) (s : Stream) (e : Thrown) :
  streams w !! i = Some s → intervalActive s = true →
  currentlyGettingChanges w = false →
  isError e = false ∨ code e ≠ Some "42704" →
  run [Tick i; Settle (length (calls w)) (QueryThrows e)] w
  = log [QGetChanges (client s) (slotName s)
           (addTablesString (schema s) (onlyIncludeTables s));
         UnhandledRejection i
           (if isError e then e
            else invariantError
                   "Expected error thrown from pg_logical_slot_get_changes to be an instance of Error, but got something else")] w.
Proof.
  intros Hs Hact Hflag Hcase.
  unfold run. cbn [foldl]. rewrite (step_tick w i s Hs Hact Hflag).
  rewrite (step_settle_last _ _ _ _ _ s) by exact Hs.
  unfold resume, getChanges_catch. cbn [frame call_stream outers].
  destruct w as [fl ss cs tr]. cbn in *. subst fl.
  destruct (isError e) eqn:He; cbn.
  - destruct Hcase as [Hcase|Hcase]; [discriminate|].
    destruct (decide (code e = Some "42704")); [contradiction|].
    unfold finally_poll, settle_poll, spawn, log, set_flag. cbn.
    rewrite <- ?app_assoc; reflexivity.
  - unfold finally_poll, settle_poll, spawn, log, set_flag. cbn.
    rewrite <- ?app_assoc; reflexivity.
Qed.

(** The slot is missing and cannot be re-created: the poll rejects with
    what [createSlot] throws (not with the 42704 error), without the second
    warning and without a retry. *)
Theorem failed_recreation_rejects_the_poll (w : World) (i : nat) (s : Stream)
    (e e2 e' : Thrown) :
  streams w !! i = Some s → intervalActive s = true →
  currentlyGettingChanges w = false →
  isError e = true → code e = Some "42704" →
  createSlot (QueryThrows e2) = Some e' →
  let k := length (calls w) in
  run [Tick i; Settle k (QueryThrows e); Settle k (QueryThrows e2)] w
  = log [QGetChanges (client s) (slotName s)
           (addTablesString (schema s) (onlyIncludeTables s));
         Warn "Replication slot went away?";
         QCreateSlot (client s) (slotName s);
         UnhandledRejection i e'] w.
Proof.
  intros Hs Hact Hflag Herr Hcode Hcreate k. subst k.
  unfold run. cbn [foldl]. rewrite (step_tick w i s Hs Hact Hflag).
  rewrite (step_settle_last _ _ _ _ _ s) by exact Hs.
  unfold resume at 1, getChanges_catch. cbn [frame call_stream outers].
  rewrite Herr. cbn [negb].
  destruct (decide (code e = Some "42704")) as [_|Hn]; [|contradiction].
  unfold spawn, log, set_calls. cbn -[step createSlot].
  rewrite (step_settle_last _ _ _ _ _ s) by exact Hs.
  unfold resume. cbn [frame call_stream outers]. rewrite Hcreate.
  unfold finally_poll, settle_poll, spawn, log, set_flag. cbn.
  destruct w as [fl ss cs tr]. cbn in *. subst fl.
  rewrite <- !app_assoc. reflexivity.
Qed.

(** When the slot cannot be created, [getKyselyChanges] rejects and no
    stream is added: code 58P01 is reported as a new [Error] that names
    wal2json and carries the original message, any other [Error] is thrown
    as it is. *)
Theorem slot_creation_failure (c : nat) (tables : list string)
    (pkm : option (gmap string (list string)))
    (options : option WalConfigOptions) (random : string)
    (e : Thrown) (w : World) :
  let s := newStream c tables pkm options random in
  ∃ e', getKyselyChanges c tables pkm options random (QueryThrows e) w
        = (log [QCreateSlot c (slotName s)] w, Some e') ∧
        isError e' = true ∧
        (isError e = true → code e ≠ Some "58P01" → e' = e) ∧
        (isError e = true → code e = Some "58P01" →
         code e' = None ∧
         message e' = "Couldn't create replication slot, seems you don't have wal2json installed? Error: "
                      +:+ message e).
Proof.
  intros s. unfold getKyselyChanges, createSlot.
  destruct (isError e) eqn:He; cbn [negb].
  - destruct (decide (code e = Some "58P01")) as [Hc|Hc].
    + eexists. split; [reflexivity|]. split; [reflexivity|]. split; [congruence|].
      intros _ _. split; reflexivity.
    + eexists. split; [reflexivity|]. split; [exact He|]. split; [reflexivity|].
      intros _ Hc'. contradiction.
  - eexists. split; [reflexivity|]. split; [reflexivity|]. split; discriminate.
Qed.

(** *** Streams over time *)

Lemma later_stream_refl (s : Stream) : later_stream s s.
Proof. unfold later_stream. tauto. Qed.

Lemma later_stream_trans (s1 s2 s3 : Stream) :
  later_stream s1 s2 → later_stream s2 s3 → later_stream s1 s3.
Proof. unfold later_stream. intuition congruence. Qed.

Lemma settle_poll_streams (i : nat) (r : option Thrown) (outers : list Thrown) (w : World) :
  streams (settle_poll i r outers w) = streams w.
Proof.
  unfold settle_poll. pose proof (unwind_streams r outers w) as H.
  destruct (unwind r outers w) as [w1 [e|]]; simpl in *; exact H.
Qed.

Lemma getChanges_streams (i : nat) (s : Stream) (outers : list Thrown) (w : World) :
  streams (getChanges i s outers w).1 = streams w.
Proof.
  unfold getChanges. destruct (currentlyGettingChanges w); simpl; [|reflexivity].
  apply settle_poll_streams.
Qed.

Lemma resume_poll_streams (s : Stream) (c : Call) (o : QueryOutcome) (w : World) :
  is_poll (frame c) = true → streams (resume s c o w).1 = streams w.
Proof.
  unfold resume, getChanges_catch, finally_poll, changeHandler.
  destruct (frame c); [| |discriminate]; intros _;
  repeat (match goal with
          | |- context [match ?x with _ => _ end] => destruct x; simpl
          | |- context [if ?x then _ else _] => destruct x; simpl
          end);
    rewrite ?getChanges_streams, ?settle_poll_streams; reflexivity.
Qed.

Lemma spawn_streams (r : World * option Call) : streams (spawn r) = streams r.1.
Proof. unfold spawn. destruct r as [w [c|]]; reflexivity. Qed.

Lemma step_streams (ev : Event) (w : World) (j : nat) :
  match streams w !! j with
  | Some s => ∃ s', streams (step ev w) !! j = Some s' ∧ later_stream s s'
  | None => streams (step ev w) !! j = None
  end.
Proof.
  assert (Hsame : ∀ w', streams w' = streams w →
            match streams w !! j with
            | Some s => ∃ s', streams w' !! j = Some s' ∧ later_stream s s'
            | None => streams w' !! j = None
            end).
  { intros w' ->. destruct (streams w !! j) as [s|]; [|reflexivity].
    exists s. split; [reflexivity|apply later_stream_refl]. }
  assert (Hins : ∀ i si s', streams w !! i = Some si → later_stream si s' →
            match streams w !! j with
            | Some s => ∃ s'', (<[i := s']> (streams w)) !! j = Some s'' ∧ later_stream s s''
            | None => (<[i := s']> (streams w)) !! j = None
            end).
  { intros i si s' Hi Hl. destruct (decide (i = j)) as [->|Hne].
    - rewrite Hi. exists s'. split; [|exact Hl].
      apply list_lookup_insert_eq. eapply lookup_lt_Some; exact Hi.
    - rewrite list_lookup_insert_ne by exact Hne.
      destruct (streams w !! j) as [s|]; [|reflexivity].
      exists s. split; [reflexivity|apply later_stream_refl]. }
  destruct ev as [i|k o|i]; unfold step.
  - apply Hsame. rewrite spawn_streams. unfold tick.
    destruct (streams w !! i) as [s|]; [|reflexivity].
    destruct (intervalActive s); [|reflexivity]. apply getChanges_streams.
  - destruct (calls w !! k) as [c|]; [|now apply Hsame].
    destruct (streams w !! call_stream c) as [s|] eqn:Hs; [|now apply Hsame].
    rewrite spawn_streams.
    destruct (is_poll (frame c)) eqn:Hp.
    + apply Hsame. now rewrite resume_poll_streams.
    + unfold resume, teardown_rest. destruct (frame c); try discriminate. simpl.
      destruct (clientReleased s) eqn:Hr; simpl; [now apply Hsame|].
      apply (Hins _ s); [exact Hs|]. unfold later_stream; simpl. tauto.
  - rewrite spawn_streams. unfold teardown.
    destruct (streams w !! i) as [s|] eqn:Hs; [|now apply Hsame]. simpl.
    apply (Hins _ s); [exact Hs|]. unfold later_stream; simpl. tauto.
Qed.

(** Along any run a stream stays in its place and only moves forward. *)
Lemma run_streams_later (evs : list Event) (w : World) (j : nat) (s : Stream) :
  streams w !! j = Some s →
  ∃ s', streams (run evs w) !! j = Some s' ∧ later_stream s s'.
Proof.
  revert w s. induction evs as [|ev evs IH]; intros w s Hs; simpl.
  - exists s. split; [exact Hs|apply later_stream_refl].
  - pose proof (step_streams ev w j) as H. rewrite Hs in H.
    destruct H as (s1 & Hs1 & Hl1).
    destruct (IH _ _ Hs1) as (s2 & Hs2 & Hl2).
    exists s2. split; [exact Hs2|]. eapply later_stream_trans; eassumption.
Qed.

Lemma run_streams_none (evs : list Event) (w : World) (j : nat) :
  streams w !! j = None → streams (run evs w) !! j = None.
Proof.
  revert w. induction evs as [|ev evs IH]; intros w Hs; simpl; [exact Hs|].
  apply IH. pose proof (step_streams ev w j) as H. now rewrite Hs in H.
Qed.

(** From the call of [teardown()] on, whatever happens, a tick of that
    stream does nothing. *)
Theorem no_poll_after_teardown (evs : list Event) (w : World) (i : nat) :
  let w' := run evs (step (Teardown i) w) in
  step (Tick i) w' = w'.
Proof.
  intros w'.
  assert (Hoff : ∀ s, streams (step (Teardown i) w) !! i = Some s → intervalActive s = false).
  { unfold step, teardown. rewrite spawn_streams.
    destruct (streams w !! i) as [s0|] eqn:Hs; simpl.
    - rewrite list_lookup_insert_eq by (eapply lookup_lt_Some; exact Hs).
      now intros s [= <-].
    - rewrite Hs. discriminate. }
  unfold step, tick.
  destruct (streams w' !! i) as [s'|] eqn:Hs'; [|reflexivity].
  destruct (streams (step (Teardown i) w) !! i) as [s|] eqn:Hs.
  - destruct (run_streams_later evs _ i s Hs) as (s'' & Hs'' & Hl).
    fold w' in Hs''. rewrite Hs' in Hs''. injection Hs'' as <-.
    destruct Hl as (_ & _ & _ & _ & _ & _ & _ & Hint & _).
    now rewrite (Hint (Hoff s eq_refl)).
  - pose proof (run_streams_none evs _ i Hs) as Hn. fold w' in Hn. congruence.
Qed.

(** A stream keeps its client, slot name, schema and tables for good, and
    a cleared timer, a released client and a completed subject stay so. *)
Theorem stream_constants_and_shutdown_are_permanent
    (evs : list Event) (w : World) (j : nat) (s : Stream) :
  streams w !! j = Some s →
  ∃ s', streams (run evs w) !! j = Some s' ∧
        client s' = client s ∧ slotName s' = slotName s ∧
        schema s' = schema s ∧ onlyIncludeTables s' = onlyIncludeTables s ∧
        isUsingMultipleSchemas s' = isUsingMultipleSchemas s ∧
        (intervalActive s = false → intervalActive s' = false) ∧
        (clientReleased s = true → clientReleased s' = true) ∧
        (subjectStopped s = true → subjectStopped s' = true).
Proof.
  intros Hs. destruct (run_streams_later evs w j s Hs) as (s' & Hs' & Hl).
  exists s'. split; [exact Hs'|]. unfold later_stream in Hl. tauto.
Qed.

(** Polling never stops a timer, releases a client or completes a
    subject, however the poll ends. *)
Theorem polling_changes_no_stream :
  (∀ (w : World) (i : nat), streams (step (Tick i) w) = streams w) ∧
  (∀ (w : World) (k : nat) (o : QueryOutcome) (c : Call),
      calls w !! k = Some c → is_poll (frame c) = true →
      streams (step (Settle k o) w) = streams w).
Proof.
  split.
  - intros w i. unfold step. rewrite spawn_streams. unfold tick.
    destruct (streams w !! i) as [s|]; [|reflexivity].
    destruct (intervalActive s); [|reflexivity]. apply getChanges_streams.
  - intros w k o c Hk Hp. unfold step. rewrite Hk.
    destruct (streams w !! call_stream c) as [s|]; [|reflexivity].
    rewrite spawn_streams. now rewrite resume_poll_streams.
Qed.



(** *** One poll at a time *)

Lemma filter_delete_length {A} (f : A → bool) (l : list A) (k : nat) (x : A) :
  l !! k = Some x →
  length (List.filter f l)
  = (length (List.filter f (delete k l)) + (if f x then 1 else 0))%nat.
Proof.
  revert k. induction l as [|y l IH]; intros k Hk; [discriminate|].
  destruct k as [|k]; simpl in *.
  - injection Hk as ->. destruct (f x); simpl; lia.
  - specialize (IH k Hk). destruct (f y); simpl; lia.
Qed.

Lemma resume_suspended_keeps_flag (s : Stream) (c c' : Call) (o : QueryOutcome) (w : World) :
  currentlyGettingChanges w = true →
  (resume s c o w).2 = Some c' →
  currentlyGettingChanges (resume s c o w).1 = true.
Proof.
  intros Hf. unfold resume, getChanges_catch, getChanges.
  destruct (frame c) as [|e|].
  - destruct o as [rows|e]; [destruct (map_toLsnData rows) as [e|changes]|]; simpl;
      try discriminate;
      (destruct (negb (isError e)); simpl; [discriminate|]);
      (destruct (decide (code e = Some "42704")); simpl; [|discriminate]);
      intros _; exact Hf.
  - destruct (createSlot o); simpl; [discriminate|].
    rewrite Hf. simpl. discriminate.
  - destruct (dropSlot o); simpl; discriminate.
Qed.

Lemma step_preserves_one_poll (ev : Event) (w : World) :
  one_poll_inv w → one_poll_inv (step ev w).
Proof.
  unfold one_poll_inv, poll_calls. intros Hinv.
  destruct ev as [i|k o|i]; unfold step.
  - unfold tick. destruct (streams w !! i) as [s|]; [|exact Hinv].
    destruct (intervalActive s); [|exact Hinv].
    unfold getChanges, spawn. destruct (currentlyGettingChanges w) eqn:Hf; simpl.
    + unfold settle_poll. simpl. rewrite Hf. exact Hinv.
    + rewrite List.filter_app, length_app, Hinv. reflexivity.
  - destruct (calls w !! k) as [c|] eqn:Hk; [|exact Hinv].
    destruct (streams w !! call_stream c) as [s|]; [|exact Hinv].
    set (w0 := set_calls (delete k (calls w)) w).
    pose proof (resume_calls s c o w0) as Hcalls.
    pose proof (filter_delete_length (fun c => is_poll (frame c)) _ _ _ Hk) as Hlen.
    destruct (is_poll (frame c)) eqn:Hp.
    + assert (Hf : currentlyGettingChanges w = true).
      { destruct (currentlyGettingChanges w); [reflexivity|]. rewrite Hinv in Hlen. lia. }
      rewrite Hf in Hinv. rewrite Hinv in Hlen.
      assert (H0 : length (List.filter (fun c => is_poll (frame c)) (delete k (calls w))) = 0)
        by lia.
      unfold spawn. destruct (resume s c o w0) as [w' [c'|]] eqn:Hres; simpl in *.
      * rewrite Hcalls, List.filter_app, length_app, H0. simpl.
        rewrite (resume_suspends_poll s c c' o w0) by (now rewrite Hres). simpl.
        pose proof (resume_suspended_keeps_flag s c c' o w0 Hf) as Hkeep.
        rewrite Hres in Hkeep. simpl in Hkeep. now rewrite Hkeep.
      * rewrite Hcalls, H0.
        now rewrite (settled_poll_clears_flag s c o w0 w' Hp Hres).
    + destruct (resume_teardown_flag s c o w0 Hp) as [Hnone Hflag].
      unfold spawn. rewrite Hnone, Hcalls, Hflag. simpl.
      rewrite Hinv in Hlen. destruct (currentlyGettingChanges w); simpl in *; lia.
  - unfold teardown. destruct (streams w !! i) as [s|]; [|exact Hinv].
    unfold spawn. simpl. rewrite List.filter_app, length_app. simpl.
    rewrite Hinv. lia.
Qed.

(** From a process with no poll in progress, at most one [getChanges]
    call is ever suspended at a time, over all streams, and the flag is set
    exactly while one is. *)
Theorem at_most_one_poll_in_flight (evs : list Event) (w : World) :
  currentlyGettingChanges w = false → poll_calls w = [] →
  let w' := run evs w in
  (length (poll_calls w') ≤ 1)%nat ∧
  (currentlyGettingChanges w' = true ↔ length (poll_calls w') = 1).
Proof.
  intros Hf Hnone w'.
  assert (Hinv : one_poll_inv w') .
  { subst w'. assert (H0 : one_poll_inv w) by (unfold one_poll_inv; now rewrite Hf, Hnone).
    clear Hf Hnone. revert w H0.
    induction evs as [|ev evs IH]; intros w H0; [exact H0|].
    simpl. apply IH. now apply step_preserves_one_poll. }
  unfold one_poll_inv in Hinv. rewrite Hinv.
  destruct (currentlyGettingChanges w'); split; try lia; split; congruence.
Qed.

(** *** Nothing after completion *)

Lemma emits_app (i : nat) (t1 t2 : list Effect) :
  emits i (t1 ++ t2) = emits i t1 ++ emits i t2.
Proof. apply List.filter_app. Qed.

Lemma unwind_trace (r : option Thrown) (outers : list Thrown) (w : World) :
  trace (unwind r outers w).1 = trace w.
Proof.
  revert r w. induction outers as [|e rest IH]; intros r w; simpl; [reflexivity|].
  now rewrite IH.
Qed.

Lemma settle_poll_emits (i j : nat) (r : option Thrown) (outers : list Thrown) (w : World) :
  emits i (trace (settle_poll j r outers w)) = emits i (trace w).
Proof.
  unfold settle_poll. pose proof (unwind_trace r outers w) as H.
  destruct (unwind r outers w) as [w1 [e|]]; simpl in *; rewrite H; [|reflexivity].
  rewrite emits_app. simpl. apply app_nil_r.
Qed.

Lemma getChanges_emits (i j : nat) (s : Stream) (outers : list Thrown) (w : World) :
  emits i (trace (getChanges j s outers w).1) = emits i (trace w).
Proof.
  unfold getChanges. destruct (currentlyGettingChanges w); simpl.
  - apply settle_poll_emits.
  - rewrite emits_app. simpl. apply app_nil_r.
Qed.

Lemma emits_other (i j : nat) (evs : list SubjectChangeEvent) :
  i ≠ j → emits i (Emit j <$> evs) = [].
Proof.
  intros Hne. induction evs as [|ev evs IH]; [reflexivity|].
  rewrite fmap_cons. simpl. destruct (Nat.eqb_spec i j); [contradiction|exact IH].
Qed.

Lemma resume_emits (i : nat) (s : Stream) (c : Call) (o : QueryOutcome) (w : World) :
  (call_stream c = i → subjectStopped s = true) →
  emits i (trace (resume s c o w).1) = emits i (trace w).
Proof.
  intros Hstop.
  assert (Hch : ∀ ps, emits i (trace (changeHandler (call_stream c) s ps w)) = emits i (trace w)).
  { intros ps. unfold changeHandler. destruct (subjectStopped s) eqn:Hs; [reflexivity|].
    simpl. rewrite emits_app, emits_other, app_nil_r; [reflexivity|].
    intros Heq. symmetry in Heq. specialize (Hstop Heq). congruence. }
  assert (Hcatch : ∀ e, emits i (trace (getChanges_catch (call_stream c) s e (outers c) w).1)
                        = emits i (trace w)).
  { intros e. unfold getChanges_catch, finally_poll.
    destruct (negb (isError e)); simpl; [now rewrite settle_poll_emits|].
    destruct (decide (code e = Some "42704")); simpl.
    - rewrite emits_app. simpl. apply app_nil_r.
    - now rewrite settle_poll_emits. }
  unfold resume. destruct (frame c) as [|e|].
  - destruct o as [rows|e]; [|apply Hcatch].
    destruct (map_toLsnData rows) as [e|ps]; [apply Hcatch|].
    simpl. unfold finally_poll. rewrite settle_poll_emits. simpl. apply Hch.
  - destruct (createSlot o) as [e'|]; simpl.
    + unfold finally_poll. now rewrite settle_poll_emits.
    + rewrite getChanges_emits. simpl. rewrite emits_app. simpl. apply app_nil_r.
  - simpl. unfold teardown_rest.
    destruct (clientReleased s); simpl; rewrite emits_app; simpl;
      [apply app_nil_r|].
    destruct (subjectStopped s); simpl; apply app_nil_r.
Qed.

Lemma spawn_trace (r : World * option Call) : trace (spawn r) = trace r.1.
Proof. unfold spawn. destruct r as [w [c|]]; reflexivity. Qed.

Lemma step_emits (ev : Event) (w : World) (i : nat) (s : Stream) :
  streams w !! i = Some s → subjectStopped s = true →
  emits i (trace (step ev w)) = emits i (trace w).
Proof.
  intros Hs Hstop. destruct ev as [j|k o|j]; unfold step.
  - rewrite spawn_trace. unfold tick.
    destruct (streams w !! j) as [sj|]; [|reflexivity].
    destruct (intervalActive sj); [|reflexivity]. apply getChanges_emits.
  - destruct (calls w !! k) as [c|]; [|reflexivity].
    destruct (streams w !! call_stream c) as [sc|] eqn:Hsc; [|reflexivity].
    rewrite spawn_trace, resume_emits; [reflexivity|].
    intros Heq. rewrite Heq in Hsc. congruence.
  - rewrite spawn_trace. unfold teardown.
    destruct (streams w !! j) as [sj|]; [|reflexivity]. simpl.
    rewrite emits_app. simpl. apply app_nil_r.
Qed.

(** Once the subject of a stream has completed, no event of that stream is
    delivered any more, also by a poll that was in flight. *)
Theorem no_event_after_completion (evs : list Event) (w : World) (i : nat) (s : Stream) :
  streams w !! i = Some s → subjectStopped s = true →
  emits i (trace (run evs w)) = emits i (trace w).
Proof.
  revert w s. induction evs as [|ev evs IH]; intros w s Hs Hstop; [reflexivity|].
  simpl. pose proof (step_streams ev w i) as Hlater. rewrite Hs in Hlater.
  destruct Hlater as (s1 & Hs1 & Hl).
  rewrite (IH _ s1 Hs1); [exact (step_emits ev w i s Hs Hstop)|].
  unfold later_stream in Hl. tauto.
Qed.

(** *** Concrete runs *)

Lemma successful_poll_witness :
  (streams oneStream !! 0 = Some schemaTwo ∧ intervalActive schemaTwo = true ∧
   currentlyGettingChanges oneStream = false ∧
   map_toLsnData goodRows = inr goodPayloads) ∧
  run [Tick 0; Settle (length (calls oneStream)) (QueryOk goodRows)] oneStream
  = log (QGetChanges (client schemaTwo) (slotName schemaTwo)
           (addTablesString (schema schemaTwo) (onlyIncludeTables schemaTwo))
         :: (if subjectStopped schemaTwo then []
             else Emit 0 <$> decode_payloads schemaTwo goodPayloads)) oneStream.
Proof.
  split; [repeat split|].
  apply (successful_poll oneStream 0 schemaTwo goodRows goodPayloads); reflexivity.
Defined.

Lemma malformed_row_drops_the_batch_witness :
  (streams oneStream !! 0 = Some schemaTwo ∧ intervalActive schemaTwo = true ∧
   currentlyGettingChanges oneStream = false ∧
   brokenRow ∈ goodRows ++ [brokenRow] ∧ row_data brokenRow = None) ∧
  run [Tick 0; Settle (length (calls oneStream)) (QueryOk (goodRows ++ [brokenRow]))] oneStream
  = log [QGetChanges (client schemaTwo) (slotName schemaTwo)
           (addTablesString (schema schemaTwo) (onlyIncludeTables schemaTwo));
         UnhandledRejection 0 syntaxError] oneStream.
Proof.
  assert (Hin : brokenRow ∈ goodRows ++ [brokenRow])
    by (apply elem_of_app; right; apply list_elem_of_singleton; reflexivity).
  split; [repeat split; exact Hin|].
  apply (malformed_row_drops_the_batch oneStream 0 schemaTwo
           (goodRows ++ [brokenRow]) brokenRow); try reflexivity.
  exact Hin.
Defined.

Lemma failed_query_rejects_the_poll_witness :
  (streams oneStream !! 0 = Some schemaTwo ∧ intervalActive schemaTwo = true ∧
   currentlyGettingChanges oneStream = false ∧
   (isError connectionLost = false ∨ code connectionLost ≠ Some "42704")) ∧
  run [Tick 0; Settle (length (calls oneStream)) (QueryThrows connectionLost)] oneStream
  = log [QGetChanges (client schemaTwo) (slotName schemaTwo)
           (addTablesString (schema schemaTwo) (onlyIncludeTables schemaTwo));
         UnhandledRejection 0
           (if isError connectionLost then connectionLost
            else invariantError
                   "Expected error thrown from pg_logical_slot_get_changes to be an instance of Error, but got something else")]
      oneStream.
Proof.
  assert (Hc : isError connectionLost = false ∨ code connectionLost ≠ Some "42704")
    by (right; discriminate).
  split; [repeat split; exact Hc|].
  apply (failed_query_rejects_the_poll oneStream 0 schemaTwo connectionLost);
    try reflexivity.
  exact Hc.
Defined.

Lemma failed_recreation_rejects_the_poll_witness :
  (streams oneStream !! 0 = Some schemaTwo ∧ intervalActive schemaTwo = true ∧
   currentlyGettingChanges oneStream = false ∧
   isError slotGone = true ∧ code slotGone = Some "42704" ∧
   createSlot (QueryThrows connectionLost) = Some connectionLost) ∧
  run [Tick 0; Settle (length (calls oneStream)) (QueryThrows slotGone);
       Settle (length (calls oneStream)) (QueryThrows connectionLost)] oneStream
  = log [QGetChanges (client schemaTwo) (slotName schemaTwo)
           (addTablesString (schema schemaTwo) (onlyIncludeTables schemaTwo));
         Warn "Replication slot went away?";
         QCreateSlot (client schemaTwo) (slotName schemaTwo);
         UnhandledRejection 0 connectionLost] oneStream.
Proof.
  split; [repeat split|].
  apply (failed_recreation_rejects_the_poll oneStream 0 schemaTwo slotGone
           connectionLost connectionLost); reflexivity.
Defined.

Lemma slot_missing_path_witness :
  (streams oneStream !! 0 = Some schemaTwo ∧ intervalActive schemaTwo = true ∧
   currentlyGettingChanges oneStream = false ∧
   isError slotGone = true ∧ code slotGone = Some "42704") ∧
  run [Tick 0; Settle (length (calls oneStream)) (QueryThrows slotGone);
       Settle (length (calls oneStream)) (QueryOk goodRows)] oneStream
  = log [QGetChanges (client schemaTwo) (slotName schemaTwo)
           (addTablesString (schema schemaTwo) (onlyIncludeTables schemaTwo));
         Warn "Replication slot went away?";
         QCreateSlot (client schemaTwo) (slotName schemaTwo);
         Warn "Recreated slot; retrying getChanges (no further output implies success)";
         UnhandledRejection 0 slotGone] oneStream.
Proof.
  split; [repeat split|].
  apply (slot_missing_path oneStream 0 schemaTwo slotGone goodRows); reflexivity.
Defined.

Lemma stream_constants_and_shutdown_are_permanent_witness :
  streams oneStream !! 0 = Some schemaTwo ∧
  ∃ s', streams (run [Tick 0; Teardown 0; Settle 1 (QueryOk []); Settle 0 (QueryOk goodRows)]
                   oneStream) !! 0 = Some s' ∧
        client s' = client schemaTwo ∧ slotName s' = slotName schemaTwo ∧
        schema s' = schema schemaTwo ∧
        onlyIncludeTables s' = onlyIncludeTables schemaTwo ∧
        isUsingMultipleSchemas s' = isUsingMultipleSchemas schemaTwo ∧
        (intervalActive schemaTwo = false → intervalActive s' = false) ∧
        (clientReleased schemaTwo = true → clientReleased s' = true) ∧
        (subjectStopped schemaTwo = true → subjectStopped s' = true).
Proof.
  split; [reflexivity|].
  apply (stream_constants_and_shutdown_are_permanent
           [Tick 0; Teardown 0; Settle 1 (QueryOk []); Settle 0 (QueryOk goodRows)]
           oneStream 0 schemaTwo).
  reflexivity.
Defined.


Lemma at_most_one_poll_in_flight_witness :
  (currentlyGettingChanges twoStreams = false ∧ poll_calls twoStreams = []) ∧
  (length (poll_calls (run [Tick 0; Tick 1; Tick 0] twoStreams)) ≤ 1)%nat.
Proof.
  split; [split; reflexivity|].
  destruct (at_most_one_poll_in_flight [Tick 0; Tick 1; Tick 0] twoStreams) as [P _].
  - reflexivity.
  - reflexivity.
  - exact P.
Defined.

Lemma no_event_after_completion_witness :
  (streams (run [Tick 0; Teardown 0; Settle 1 (QueryOk [])] oneStream) !! 0
   = Some (released_completed_stream (stopped_stream schemaTwo)) ∧
   subjectStopped (released_completed_stream (stopped_stream schemaTwo)) = true) ∧
  emits 0 (trace (run [Settle 0 (QueryOk goodRows)]
                    (run [Tick 0; Teardown 0; Settle 1 (QueryOk [])] oneStream)))
  = emits 0 (trace (run [Tick 0; Teardown 0; Settle 1 (QueryOk [])] oneStream)).
Proof.
  split; [split; reflexivity|].
  apply (no_event_after_completion [Settle 0 (QueryOk goodRows)]
           (run [Tick 0; Teardown 0; Settle 1 (QueryOk [])] oneStream) 0
           (released_completed_stream (stopped_stream schemaTwo))); reflexivity.
Defined.

End TailerBehaviour.
